(** * Reusable-Agentic-Auth: the session state manager, in Rocq

    A shallow embedding of the authentication state manager of the Solana
    auth plugin and of what it rests on:

    - [src/unnamed/part_000] (utils/encryption): [encryptData], [decryptData];
    - [src/storage.ts] (utils/storage): [storeData], [retrieveData] and the
      file and database backends;
    - [src/authStateManager.ts]: [AuthStateManager] with [initialize],
      [saveAuthState], [loadAuthState], [refreshAuthState], [isValid] and
      [clearAuthState];
    - [src/unnamed/part_006] (utils/validation): [generateNonce],
      [validatePublicKey], [validateAuthState].

    The platform functions the code calls (UTF-8 and hex codecs of [Buffer],
    the AES-256-CBC cipher of [crypto], [JSON.stringify] and [JSON.parse])
    are modelled as executable functions too, so that every scenario can be
    evaluated.

    Conventions.
    - A JavaScript string is a list of UTF-16 code units ([list N]).
    - A byte is a [Byte.byte]; a [Buffer] is a [list byte].
    - A JavaScript number that holds a time stamp is an integer ([Z]). The
      model is exact on the safe integers (magnitude below 2^53), which
      millisecond time stamps are; where the code would compute with a number
      outside them the result is [Unmodelled].
    - [async] functions are run to completion one after the other; an
      exception is the result [Throw], and a state change made before the
      exception stays made.
    - [console.log] and [console.error] have no effect on the state and are
      left out. *)

From Stdlib Require Import ZArith NArith List Lia Bool Ascii String Btauto.
From Stdlib.Strings Require Import Byte.
From stdpp Require Import gmap.
Import ListNotations.

Local Open Scope N_scope.

(* ===================================================================== *)
(** * Part I. The embedding                                              *)
(* ===================================================================== *)

(** ** Bytes *)

Module Bytes.

(** The byte with value [n mod 256]. *)
Definition byte_of_N (n : N) : byte :=
  match Byte.of_N (n mod 256) with
  | Some b => b
  | None => x00
  end.

Definition bxor (a b : byte) : byte :=
  byte_of_N (N.lxor (Byte.to_N a) (Byte.to_N b)).

Definition all_bytes : list byte :=
  Eval vm_compute in map (fun n => byte_of_N (N.of_nat n)) (seq 0 256).

End Bytes.
Import Bytes.

(** ** JavaScript strings *)

Module JsString.

(** A string literal of the source, as its code units (ASCII only). *)
Definition js (s : string) : list N :=
  map N_of_ascii (list_ascii_of_string s).

(** [String.prototype.padEnd(n)]: pads with spaces (U+0020) up to [n] units. *)
Definition padEnd (n : nat) (s : list N) : list N :=
  s ++ repeat 32 (n - length s)%nat.

(** [String.prototype.slice(0, n)]. *)
Definition slice0 (n : nat) (s : list N) : list N := firstn n s.

(** [String.prototype.split(sep)] for a one-unit separator. *)
Fixpoint split (sep : N) (s : list N) : list (list N) :=
  match s with
  | [] => [[]]
  | c :: rest =>
      if c =? sep then [] :: split sep rest
      else match split sep rest with
           | h :: t => (c :: h) :: t
           | [] => [[c]]
           end
  end.

(** The white space [parseInt] skips. *)
Definition is_white_space (c : N) : bool :=
  existsb (N.eqb c)
    [9; 10; 11; 12; 13; 32; 160; 0x1680; 0x2000; 0x2001; 0x2002; 0x2003; 0x2004;
     0x2005; 0x2006; 0x2007; 0x2008; 0x2009; 0x200A; 0x2028; 0x2029; 0x202F;
     0x205F; 0x3000; 0xFEFF].

Fixpoint skip_white_space (s : list N) : list N :=
  match s with
  | c :: rest => if is_white_space c then skip_white_space rest else s
  | [] => []
  end.

(** The value of the longest prefix of decimal digits, if there is a digit. *)
Fixpoint leading_digits (acc : N) (seen : bool) (s : list N) : option N :=
  match s with
  | c :: rest =>
      if (48 <=? c) && (c <=? 57) then leading_digits (10 * acc + (c - 48)) true rest
      else if seen then Some acc else None
  | [] => if seen then Some acc else None
  end.

(** [Number.isSafeInteger]: the integers a double holds exactly, with their
    neighbours. *)
Definition safe_integer (z : Z) : bool :=
  ((- 9007199254740991 <=? z) && (z <=? 9007199254740991))%Z.

(** [parseInt(s, 10)] when the result is a safe integer; [None] is NaN, or
    an integer too large to be held exactly. *)
Definition parseInt10 (s : list N) : option Z :=
  let result :=
    match skip_white_space s with
    | 45 :: rest => option_map (fun n => (- Z.of_N n)%Z) (leading_digits 0 false rest)
    | 43 :: rest => option_map Z.of_N (leading_digits 0 false rest)
    | rest => option_map Z.of_N (leading_digits 0 false rest)
    end in
  match result with
  | Some z => if safe_integer z then Some z else None
  | None => None
  end.

Definition is_high_surrogate (c : N) : bool := (0xD800 <=? c) && (c <=? 0xDBFF).
Definition is_low_surrogate (c : N) : bool := (0xDC00 <=? c) && (c <=? 0xDFFF).

(** [String.prototype.isWellFormed]: 16-bit units, no lone surrogate. *)
Fixpoint isWellFormed (s : list N) : bool :=
  match s with
  | [] => true
  | c :: rest =>
      if is_high_surrogate c then
        match rest with
        | d :: rest' => is_low_surrogate d && isWellFormed rest'
        | [] => false
        end
      else if is_low_surrogate c then false
      else (c <? 0x10000) && isWellFormed rest
  end.

End JsString.
Import JsString.

(** ** Hexadecimal: [buf.toString("hex")] and [Buffer.from(s, "hex")] *)

Module Hex.

Definition hex_digit (n : N) : N :=
  if n <? 10 then 48 + n else 87 + n.          (* '0'..'9', 'a'..'f' *)

(** [buf.toString("hex")]: two lowercase digits per byte. *)
Definition hex_encode (bs : list byte) : list N :=
  flat_map (fun b => [hex_digit (Byte.to_N b / 16); hex_digit (Byte.to_N b mod 16)]) bs.

Definition hex_value (c : N) : option N :=
  if (48 <=? c) && (c <=? 57) then Some (c - 48)
  else if (97 <=? c) && (c <=? 102) then Some (c - 87)
  else if (65 <=? c) && (c <=? 70) then Some (c - 55)
  else None.

(** [Buffer.from(s, "hex")]: decodes pairs of digits and stops, keeping what
    it has, at the first pair that is not two hexadecimal digits; a single
    trailing unit is dropped. *)
Fixpoint hex_decode (s : list N) : list byte :=
  match s with
  | a :: b :: rest =>
      match hex_value a, hex_value b with
      | Some x, Some y => byte_of_N (16 * x + y) :: hex_decode rest
      | _, _ => []
      end
  | _ => []
  end.

End Hex.
Import Hex.

(** ** UTF-8: [Buffer.from(s, "utf8")] and decoding to a string *)

Module Utf8.

Definition replacement : list byte := [xef; xbf; xbd].   (* U+FFFD *)

(** The UTF-8 bytes of a code point. *)
Definition encode_code_point (cp : N) : list byte :=
  if cp <? 0x80 then [byte_of_N cp]
  else if cp <? 0x800 then
    [byte_of_N (0xC0 + cp / 64); byte_of_N (0x80 + cp mod 64)]
  else if cp <? 0x10000 then
    [byte_of_N (0xE0 + cp / 4096); byte_of_N (0x80 + (cp / 64) mod 64);
     byte_of_N (0x80 + cp mod 64)]
  else
    [byte_of_N (0xF0 + cp / 262144); byte_of_N (0x80 + (cp / 4096) mod 64);
     byte_of_N (0x80 + (cp / 64) mod 64); byte_of_N (0x80 + cp mod 64)].

(** [Buffer.from(s, "utf8")]: a surrogate pair is one code point, a lone
    surrogate is written as U+FFFD. *)
Fixpoint utf8_encode (s : list N) : list byte :=
  match s with
  | [] => []
  | c :: rest =>
      if is_high_surrogate c then
        match rest with
        | d :: rest' =>
            if is_low_surrogate d then
              encode_code_point (0x10000 + (c - 0xD800) * 1024 + (d - 0xDC00))
                ++ utf8_encode rest'
            else replacement ++ utf8_encode rest
        | [] => replacement
        end
      else if is_low_surrogate c then replacement ++ utf8_encode rest
      else encode_code_point c ++ utf8_encode rest
  end.

(** The code units of a decoded code point. *)
Definition utf16_units (cp : N) : list N :=
  if cp <? 0x10000 then [cp]
  else [0xD800 + (cp - 0x10000) / 1024; 0xDC00 + (cp - 0x10000) mod 1024].

(** The decoder's state between two bytes: nothing pending, or a code point
    under construction with the number of continuation bytes still needed
    and the range allowed for the next one. *)
Inductive decoder_state :=
| Fresh
| Pending (cp : N) (needed : nat) (lower upper : N).

(** A byte read with nothing pending: what is emitted, and the next state. *)
Definition lead_byte (b : N) : list N * decoder_state :=
  if b <=? 0x7F then ([b], Fresh)
  else if (0xC2 <=? b) && (b <=? 0xDF) then ([], Pending (b mod 32) 1 0x80 0xBF)
  else if (0xE0 <=? b) && (b <=? 0xEF) then
    ([], Pending (b mod 16) 2 (if b =? 0xE0 then 0xA0 else 0x80)
                              (if b =? 0xED then 0x9F else 0xBF))
  else if (0xF0 <=? b) && (b <=? 0xF4) then
    ([], Pending (b mod 8) 3 (if b =? 0xF0 then 0x90 else 0x80)
                             (if b =? 0xF4 then 0x8F else 0xBF))
  else ([0xFFFD], Fresh).

(** The decoder of the encoding standard (every ill-formed sequence gives
    one U+FFFD per maximal subpart); no byte order mark is removed. *)
Fixpoint utf8_decode_from (st : decoder_state) (bs : list byte) : list N :=
  match bs with
  | [] => match st with Fresh => [] | Pending _ _ _ _ => [0xFFFD] end
  | b :: rest =>
      let n := Byte.to_N b in
      match st with
      | Fresh =>
          let '(out, st') := lead_byte n in out ++ utf8_decode_from st' rest
      | Pending cp needed lower upper =>
          if (lower <=? n) && (n <=? upper) then
            let cp' := cp * 64 + n mod 64 in
            match needed with
            | S (S k) => utf8_decode_from (Pending cp' (S k) 0x80 0xBF) rest
            | _ => utf16_units cp' ++ utf8_decode_from Fresh rest
            end
          else
            let '(out, st') := lead_byte n in
            0xFFFD :: out ++ utf8_decode_from st' rest
      end
  end.

Definition utf8_decode (bs : list byte) : list N := utf8_decode_from Fresh bs.

End Utf8.
Import Utf8.

(** ** AES-256 (FIPS 197), the block cipher behind ["aes-256-cbc"] *)

Module Aes256.

(** Multiplication by x in GF(2^8) modulo x^8 + x^4 + x^3 + x + 1. *)
Definition xtime (a : byte) : byte :=
  let n := Byte.to_N a in
  byte_of_N (N.lxor (2 * n) (if 128 <=? n then 0x11b else 0)).

Definition mul2 (a : byte) : byte := xtime a.
Definition mul3 (a : byte) : byte := bxor (xtime a) a.
Definition mul4 (a : byte) : byte := xtime (xtime a).
Definition mul8 (a : byte) : byte := xtime (xtime (xtime a)).
Definition mul9 (a : byte) : byte := bxor (mul8 a) a.
Definition mul11 (a : byte) : byte := bxor (bxor (mul8 a) (mul2 a)) a.
Definition mul13 (a : byte) : byte := bxor (bxor (mul8 a) (mul4 a)) a.
Definition mul14 (a : byte) : byte := bxor (bxor (mul8 a) (mul4 a)) (mul2 a).

(** The product in GF(2^8), by shift and add over the eight bits of [b]. *)
Fixpoint gmul_bits (k : nat) (a : byte) (b : N) : byte :=
  match k with
  | O => x00
  | S k' =>
      bxor (if N.odd b then a else x00) (gmul_bits k' (xtime a) (b / 2))
  end.

Definition gmul (a b : byte) : byte := gmul_bits 8 a (Byte.to_N b).

(** The multiplicative inverse (0 for 0), as the 254th power. *)
Definition ginv (a : byte) : byte :=
  let a2 := gmul a a in
  let a4 := gmul a2 a2 in
  let a8 := gmul a4 a4 in
  let a16 := gmul a8 a8 in
  let a32 := gmul a16 a16 in
  let a64 := gmul a32 a32 in
  let a128 := gmul a64 a64 in
  gmul a128 (gmul a64 (gmul a32 (gmul a16 (gmul a8 (gmul a4 a2))))).

Definition rotl8 (n : N) (k : N) : N :=
  N.lor (N.shiftl n k mod 256) (N.shiftr n (8 - k)).

(** The affine transformation of the S-box. *)
Definition affine (a : byte) : byte :=
  let n := Byte.to_N a in
  byte_of_N (N.lxor (N.lxor (N.lxor (N.lxor (N.lxor n (rotl8 n 1)) (rotl8 n 2))
                                    (rotl8 n 3)) (rotl8 n 4)) 0x63).

Definition sbox_table : list byte :=
  Eval vm_compute in map (fun a => affine (ginv a)) all_bytes.

Fixpoint index_of (b : byte) (l : list byte) : N :=
  match l with
  | [] => 0
  | c :: rest => if Byte.eqb c b then 0 else 1 + index_of b rest
  end.

Definition inv_sbox_table : list byte :=
  Eval vm_compute in map (fun b => byte_of_N (index_of b sbox_table)) all_bytes.

Definition sbox (a : byte) : byte :=
  nth (N.to_nat (Byte.to_N a)) sbox_table x00.

Definition inv_sbox (a : byte) : byte :=
  nth (N.to_nat (Byte.to_N a)) inv_sbox_table x00.

(** A column of the state (four bytes) and the state (four columns). *)
Record word := W { w0 : byte; w1 : byte; w2 : byte; w3 : byte }.
Record block := Blk { c0 : word; c1 : word; c2 : word; c3 : word }.

Definition word_map (f : byte -> byte) (w : word) : word :=
  W (f (w0 w)) (f (w1 w)) (f (w2 w)) (f (w3 w)).

Definition word_xor (a b : word) : word :=
  W (bxor (w0 a) (w0 b)) (bxor (w1 a) (w1 b)) (bxor (w2 a) (w2 b)) (bxor (w3 a) (w3 b)).

Definition block_map (f : word -> word) (s : block) : block :=
  Blk (f (c0 s)) (f (c1 s)) (f (c2 s)) (f (c3 s)).

Definition block_xor (a b : block) : block :=
  Blk (word_xor (c0 a) (c0 b)) (word_xor (c1 a) (c1 b))
      (word_xor (c2 a) (c2 b)) (word_xor (c3 a) (c3 b)).

Definition SubBytes : block -> block := block_map (word_map sbox).
Definition InvSubBytes : block -> block := block_map (word_map inv_sbox).

(** Row [i] is rotated left by [i] columns. *)
Definition ShiftRows (s : block) : block :=
  Blk (W (w0 (c0 s)) (w1 (c1 s)) (w2 (c2 s)) (w3 (c3 s)))
      (W (w0 (c1 s)) (w1 (c2 s)) (w2 (c3 s)) (w3 (c0 s)))
      (W (w0 (c2 s)) (w1 (c3 s)) (w2 (c0 s)) (w3 (c1 s)))
      (W (w0 (c3 s)) (w1 (c0 s)) (w2 (c1 s)) (w3 (c2 s))).

Definition InvShiftRows (s : block) : block :=
  Blk (W (w0 (c0 s)) (w1 (c3 s)) (w2 (c2 s)) (w3 (c1 s)))
      (W (w0 (c1 s)) (w1 (c0 s)) (w2 (c3 s)) (w3 (c2 s)))
      (W (w0 (c2 s)) (w1 (c1 s)) (w2 (c0 s)) (w3 (c3 s)))
      (W (w0 (c3 s)) (w1 (c2 s)) (w2 (c1 s)) (w3 (c0 s))).

Definition xor4 (a b c d : byte) : byte := bxor (bxor (bxor a b) c) d.

Definition mix_column (w : word) : word :=
  let '(W a b c d) := w in
  W (xor4 (mul2 a) (mul3 b) c d)
    (xor4 a (mul2 b) (mul3 c) d)
    (xor4 a b (mul2 c) (mul3 d))
    (xor4 (mul3 a) b c (mul2 d)).

Definition inv_mix_column (w : word) : word :=
  let '(W a b c d) := w in
  W (xor4 (mul14 a) (mul11 b) (mul13 c) (mul9 d))
    (xor4 (mul9 a) (mul14 b) (mul11 c) (mul13 d))
    (xor4 (mul13 a) (mul9 b) (mul14 c) (mul11 d))
    (xor4 (mul11 a) (mul13 b) (mul9 c) (mul14 d)).

Definition MixColumns : block -> block := block_map mix_column.
Definition InvMixColumns : block -> block := block_map inv_mix_column.
Definition AddRoundKey (k s : block) : block := block_xor s k.

(** *** Key expansion (Nk = 8, Nr = 14: sixty words) *)

Definition RotWord (w : word) : word := W (w1 w) (w2 w) (w3 w) (w0 w).
Definition SubWord : word -> word := word_map sbox.
Definition zero_word : word := W x00 x00 x00 x00.

Definition Rcon (i : nat) : word :=
  W (nth i [x00; x01; x02; x04; x08; x10; x20; x40] x00) x00 x00 x00.

(** [expand n i ws]: [n] more words after the [i] words held, latest first,
    in [ws]. *)
Fixpoint expand (n i : nat) (ws : list word) : list word :=
  match n with
  | O => ws
  | S n' =>
      let prev := nth 0 ws zero_word in
      let temp :=
        if Nat.eqb (i mod 8) 0 then word_xor (SubWord (RotWord prev)) (Rcon (i / 8))
        else if Nat.eqb (i mod 8) 4 then SubWord prev
        else prev in
      expand n' (S i) (word_xor (nth 7 ws zero_word) temp :: ws)
  end.

Fixpoint words_of_bytes (bs : list byte) : list word :=
  match bs with
  | a :: b :: c :: d :: rest => W a b c d :: words_of_bytes rest
  | _ => []
  end.

Fixpoint blocks_of_words (ws : list word) : list block :=
  match ws with
  | a :: b :: c :: d :: rest => Blk a b c d :: blocks_of_words rest
  | _ => []
  end.

(** The fifteen round keys of a 32-byte key. *)
Definition KeyExpansion (key : list byte) : list block :=
  blocks_of_words (rev (expand 52 8 (rev (words_of_bytes key)))).

(** *** The cipher and its inverse, over the list of round keys *)

Fixpoint cipher_rounds (rks : list block) (s : block) : block :=
  match rks with
  | [] => s
  | [k] => AddRoundKey k (ShiftRows (SubBytes s))
  | k :: rest => cipher_rounds rest (AddRoundKey k (MixColumns (ShiftRows (SubBytes s))))
  end.

Definition Cipher (rks : list block) (s : block) : block :=
  match rks with
  | [] => s
  | k :: rest => cipher_rounds rest (AddRoundKey k s)
  end.

Fixpoint inv_cipher_rounds (rks : list block) (s : block) : block :=
  match rks with
  | [] => s
  | [k] => InvSubBytes (InvShiftRows (AddRoundKey k s))
  | k :: rest =>
      InvSubBytes (InvShiftRows (InvMixColumns (AddRoundKey k (inv_cipher_rounds rest s))))
  end.

Definition InvCipher (rks : list block) (s : block) : block :=
  match rks with
  | [] => s
  | k :: rest => AddRoundKey k (inv_cipher_rounds rest s)
  end.

(** *** Blocks and byte strings *)

Definition bytes_of_word (w : word) : list byte := [w0 w; w1 w; w2 w; w3 w].

Definition bytes_of_block (s : block) : list byte :=
  bytes_of_word (c0 s) ++ bytes_of_word (c1 s) ++ bytes_of_word (c2 s) ++ bytes_of_word (c3 s).

(** The blocks of a byte string whose length is a multiple of 16. *)
Fixpoint blocks_of_bytes (bs : list byte) : option (list block) :=
  match bs with
  | [] => Some []
  | a0 :: a1 :: a2 :: a3 :: b0 :: b1 :: b2 :: b3 ::
    d0 :: d1 :: d2 :: d3 :: e0 :: e1 :: e2 :: e3 :: rest =>
      match blocks_of_bytes rest with
      | Some l => Some (Blk (W a0 a1 a2 a3) (W b0 b1 b2 b3) (W d0 d1 d2 d3) (W e0 e1 e2 e3) :: l)
      | None => None
      end
  | _ => None
  end.

End Aes256.
Import Aes256.

(** ** Results of calls *)

(** The exceptions the modelled code can raise. *)
Inductive error :=
| InvalidIV                 (* createCipheriv: "Invalid initialization vector" *)
| InvalidKeyLength          (* createCipheriv: "Invalid key length" *)
| InvalidArgType            (* update(undefined): ERR_INVALID_ARG_TYPE *)
| InvalidArgValue           (* update(s, "hex"), s of odd length: ERR_INVALID_ARG_VALUE *)
| WrongFinalBlockLength     (* final(): "wrong final block length" *)
| BadDecrypt                (* final(): "bad decrypt" *)
| JsonSyntaxError           (* JSON.parse: SyntaxError *)
| UnsupportedStorageType (storageType : list N)
                            (* "Unsupported storage type: ..." *)
| NoDatabaseAdapter         (* "No database adapter available" *)
| RuntimeUndefined          (* this.runtime read before initialize: TypeError *)
| NotAFunction.             (* key.padEnd on a key that is no string: TypeError *)

(** A call returns, throws, or leaves what this development models (a key
    that is no plain file name, a JSON payload that is no [AuthState], a
    time-to-live that is not a number). Every theorem below is about [Ok]
    and [Throw] results. *)
Inductive outcome (A : Type) :=
| Ok (a : A)
| Throw (e : error)
| Unmodelled.
Arguments Ok {A} a.
Arguments Throw {A} e.
Arguments Unmodelled {A}.

(** ** utils/encryption: [encryptData] and [decryptData] *)

Module Encryption.

(** PKCS#7 padding to the block size of 16. *)
Definition pkcs7_pad (bs : list byte) : list byte :=
  let n := (16 - length bs mod 16)%nat in
  bs ++ repeat (byte_of_N (N.of_nat n)) n.

(** Removal of the padding as [final()] does it: the last byte [n] must be
    in 1..16 and the last [n] bytes must all be [n]. *)
Definition pkcs7_unpad (bs : list byte) : option (list byte) :=
  match rev bs with
  | [] => None
  | b :: _ =>
      let n := N.to_nat (Byte.to_N b) in
      if (1 <=? n)%nat && (n <=? 16)%nat && (n <=? length bs)%nat
         && forallb (Byte.eqb b) (firstn n (rev bs))
      then Some (firstn (length bs - n) bs)
      else None
  end.

Fixpoint cbc_encrypt (rks : list block) (prev : block) (ps : list block) : list block :=
  match ps with
  | [] => []
  | p :: rest =>
      let c := Cipher rks (block_xor p prev) in
      c :: cbc_encrypt rks c rest
  end.

Fixpoint cbc_decrypt (rks : list block) (prev : block) (cs : list block) : list block :=
  match cs with
  | [] => []
  | c :: rest => block_xor (InvCipher rks c) prev :: cbc_decrypt rks c rest
  end.

(** [createCipheriv("aes-256-cbc", key, iv)] and [createDecipheriv]: the
    round keys and the initialization vector, when the vector has 16 bytes
    and the key 32. *)
Definition createCipheriv (key iv : list byte) : outcome (list block * block) :=
  match blocks_of_bytes iv with
  | Some [ivb] =>
      if (length key =? 32)%nat then Ok (KeyExpansion key, ivb)
      else Throw InvalidKeyLength
  | _ => Throw InvalidIV
  end.

(** [cipher.update(data) + cipher.final()] on bytes. *)
Definition cipher_update_final (ctx : list block * block) (data : list byte) : list byte :=
  match blocks_of_bytes (pkcs7_pad data) with
  | Some ps => flat_map bytes_of_block (cbc_encrypt (fst ctx) (snd ctx) ps)
  | None => []
  end.

(** [decipher.update(data) + decipher.final()] on bytes. *)
Definition decipher_update_final (ctx : list block * block) (data : list byte)
  : outcome (list byte) :=
  match blocks_of_bytes data with
  | Some (c :: cs) =>
      match pkcs7_unpad (flat_map bytes_of_block (cbc_decrypt (fst ctx) (snd ctx) (c :: cs))) with
      | Some bs => Ok bs
      | None => Throw BadDecrypt
      end
  | _ => Throw WrongFinalBlockLength
  end.

(** [Buffer.from(key.padEnd(32).slice(0, 32))] *)
Definition normalizedKey (key : list N) : list byte :=
  utf8_encode (slice0 32 (padEnd 32 key)).

Definition colon : N := 58.

(** [encryptData(data, key)]; [iv] is what [randomBytes(16)] returns. *)
Definition encryptData (iv : block) (data key : list N) : outcome (list N) :=
  match createCipheriv (normalizedKey key) (bytes_of_block iv) with
  | Ok cipher =>
      let encrypted := hex_encode (cipher_update_final cipher (utf8_encode data)) in
      Ok (hex_encode (bytes_of_block iv) ++ colon :: encrypted)
  | Throw e => Throw e
  | Unmodelled => Unmodelled
  end.

(** [decryptData(encryptedData, key)]. [Buffer.from(ivHex, "hex")] takes
    any string; [decipher.update(encrypted, "hex", "utf8")] throws when
    [encrypted] is undefined or has an odd number of units, and decodes it
    like [Buffer.from] otherwise. *)
Definition decryptData (encryptedData key : list N) : outcome (list N) :=
  let parts := split colon encryptedData in
  let ivHex := nth 0 parts [] in
  let encrypted := nth_error parts 1 in
  match createCipheriv (normalizedKey key) (hex_decode ivHex) with
  | Ok decipher =>
      match encrypted with
      | None => Throw InvalidArgType
      | Some enc =>
          if Nat.odd (length enc) then Throw InvalidArgValue
          else
            match decipher_update_final decipher (hex_decode enc) with
            | Ok bs => Ok (utf8_decode bs)
            | Throw e => Throw e
            | Unmodelled => Unmodelled
            end
      end
  | Throw e => Throw e
  | Unmodelled => Unmodelled
  end.

End Encryption.
Import Encryption.

(** ** The authentication state ([interface AuthState]) *)

Record AuthState := mkAuthState {
  walletPublicKey : list N;
  signature : list N;
  timestamp : Z;
  expiresAt : Z;
  refreshToken : option (list N);       (* refreshToken?: string *)
  permissions : list (list N);
  network : list N
}.

(** ** [JSON.stringify] and [JSON.parse] *)

Module Json.

#[local] Set Warnings "-register-all".

Inductive json :=
| JNull
| JBool (b : bool)
| JNum (z : Z)                         (* an integer numeral of a safe integer *)
| JReal                                (* any other numeral: not interpreted *)
| JStr (s : list N)
| JArr (l : list json)
| JObj (fields : list (list N * json)).   (* the members as written *)

Fixpoint units_eqb (a b : list N) : bool :=
  match a, b with
  | [], [] => true
  | x :: a', y :: b' => (x =? y) && units_eqb a' b'
  | _, _ => false
  end.

(** *** Writing *)

Definition quote_unit : N := 34.       (* the double quote *)
Definition backslash : N := 92.

Definition hex4 (c : N) : list N :=
  [hex_digit (c / 4096); hex_digit ((c / 256) mod 16);
   hex_digit ((c / 16) mod 16); hex_digit (c mod 16)].

Definition unicode_escape (c : N) : list N := backslash :: 117 :: hex4 c.

(** The escape of one code unit that is no surrogate. *)
Definition escape_unit (c : N) : list N :=
  if c =? 8 then [backslash; 98]
  else if c =? 9 then [backslash; 116]
  else if c =? 10 then [backslash; 110]
  else if c =? 12 then [backslash; 102]
  else if c =? 13 then [backslash; 114]
  else if c =? quote_unit then [backslash; quote_unit]
  else if c =? backslash then [backslash; backslash]
  else if c <? 32 then unicode_escape c
  else [c].

(** The body of [QuoteJSONString]: a surrogate pair is written as it is, a
    lone surrogate as a \u escape. *)
Fixpoint escape_units (s : list N) : list N :=
  match s with
  | [] => []
  | c :: rest =>
      if is_high_surrogate c then
        match rest with
        | d :: rest' =>
            if is_low_surrogate d then c :: d :: escape_units rest'
            else unicode_escape c ++ escape_units rest
        | [] => unicode_escape c
        end
      else if is_low_surrogate c then unicode_escape c ++ escape_units rest
      else escape_unit c ++ escape_units rest
  end.

Definition quote (s : list N) : list N :=
  quote_unit :: escape_units s ++ [quote_unit].

(** The decimal digits of [n], most significant first. *)
Fixpoint digits_fuel (fuel : nat) (n : N) : list N :=
  match fuel with
  | O => []
  | S fuel' =>
      if n <? 10 then [48 + n]
      else digits_fuel fuel' (n / 10) ++ [48 + n mod 10]
  end.

Definition digits (n : N) : list N := digits_fuel (S (N.to_nat (N.log2 n))) n.

(** [Number::toString] of an integer. *)
Definition number_to_string (z : Z) : list N :=
  if (z <? 0)%Z then 45 :: digits (Z.abs_N z) else digits (Z.abs_N z).

Fixpoint join_comma (items : list (list N)) : list N :=
  match items with
  | [] => []
  | [x] => x
  | x :: rest => x ++ 44 :: join_comma rest
  end.

Definition member (name : string) (value : list N) : list N :=
  quote (js name) ++ 58 :: value.

(** [JSON.stringify(authState)]: the members in the order of the interface,
    an undefined [refreshToken] left out. *)
Definition JSON_stringify (a : AuthState) : list N :=
  123 ::
  join_comma
    ([member "walletPublicKey" (quote (walletPublicKey a));
      member "signature" (quote (signature a));
      member "timestamp" (number_to_string (timestamp a));
      member "expiresAt" (number_to_string (expiresAt a))]
     ++ match refreshToken a with
        | Some t => [member "refreshToken" (quote t)]
        | None => []
        end
     ++ [member "permissions" (91 :: join_comma (map quote (permissions a)) ++ [93]);
         member "network" (quote (network a))])
  ++ [125].

(** *** Reading: a lexer and a pushdown parser, one code unit at a time *)

Inductive token :=
| TLBrace | TRBrace | TLBracket | TRBracket | TColon | TComma
| TScalar (v : json).

(** Where the reader stands inside a numeral. *)
Inductive numeral_state :=
| NMinus | NZero | NInt | NDot | NFrac | NExp | NExpSign | NExpDigits.

Inductive lexer_state :=
| LStart
| LString (acc : list N)                       (* units read, latest first *)
| LEscape (acc : list N)
| LUnicode (acc : list N) (needed : nat) (v : N)
| LLiteral (rest : list N) (v : json)
| LNumeral (st : numeral_state) (negative : bool) (magnitude : N).

(** An open array with its elements so far, or an open object with its
    members so far and the name whose value is being read (latest first). *)
Inductive frame :=
| InArr (done : list json)
| InObj (done : list (list N * json)) (name : list N).

Inductive parser_state :=
| WantValue (stack : list frame)
| WantValueOrClose (stack : list frame)        (* just after [ *)
| WantNameOrClose (stack : list frame)         (* just after { *)
| WantName (done : list (list N * json)) (stack : list frame)
| WantColon (done : list (list N * json)) (name : list N) (stack : list frame)
| HaveValue (v : json) (stack : list frame).

Definition feed_value (stack : list frame) (t : token) : option parser_state :=
  match t with
  | TScalar v => Some (HaveValue v stack)
  | TLBracket => Some (WantValueOrClose stack)
  | TLBrace => Some (WantNameOrClose stack)
  | _ => None
  end.

Definition feed (ps : parser_state) (t : token) : option parser_state :=
  match ps with
  | WantValue stack => feed_value stack t
  | WantValueOrClose stack =>
      match t with
      | TRBracket => Some (HaveValue (JArr []) stack)
      | _ => feed_value (InArr [] :: stack) t
      end
  | WantNameOrClose stack =>
      match t with
      | TRBrace => Some (HaveValue (JObj []) stack)
      | TScalar (JStr name) => Some (WantColon [] name stack)
      | _ => None
      end
  | WantName done stack =>
      match t with
      | TScalar (JStr name) => Some (WantColon done name stack)
      | _ => None
      end
  | WantColon done name stack =>
      match t with
      | TColon => Some (WantValue (InObj done name :: stack))
      | _ => None
      end
  | HaveValue v (InArr done :: stack) =>
      match t with
      | TComma => Some (WantValue (InArr (v :: done) :: stack))
      | TRBracket => Some (HaveValue (JArr (rev (v :: done))) stack)
      | _ => None
      end
  | HaveValue v (InObj done name :: stack) =>
      match t with
      | TComma => Some (WantName ((name, v) :: done) stack)
      | TRBrace => Some (HaveValue (JObj (rev ((name, v) :: done))) stack)
      | _ => None
      end
  | HaveValue _ [] => None
  end.

Definition emit (ps : parser_state) (t : token) : option (lexer_state * parser_state) :=
  match feed ps t with
  | Some ps' => Some (LStart, ps')
  | None => None
  end.

Definition is_digit (c : N) : bool := (48 <=? c) && (c <=? 57).

(** A unit read between two tokens. *)
Definition step_start (ps : parser_state) (c : N) : option (lexer_state * parser_state) :=
  if (c =? 32) || (c =? 9) || (c =? 10) || (c =? 13) then Some (LStart, ps)
  else if c =? 123 then emit ps TLBrace
  else if c =? 125 then emit ps TRBrace
  else if c =? 91 then emit ps TLBracket
  else if c =? 93 then emit ps TRBracket
  else if c =? 58 then emit ps TColon
  else if c =? 44 then emit ps TComma
  else if c =? quote_unit then Some (LString [], ps)
  else if c =? 45 then Some (LNumeral NMinus true 0, ps)
  else if c =? 48 then Some (LNumeral NZero false 0, ps)
  else if is_digit c then Some (LNumeral NInt false (c - 48), ps)
  else if c =? 116 then Some (LLiteral (js "rue") (JBool true), ps)
  else if c =? 102 then Some (LLiteral (js "alse") (JBool false), ps)
  else if c =? 110 then Some (LLiteral (js "ull") JNull, ps)
  else None.

(** The value of a numeral that ends here, if it may end here. *)
Definition numeral_value (st : numeral_state) (negative : bool) (magnitude : N)
  : option json :=
  match st with
  | NZero | NInt =>
      let z := (if negative then - Z.of_N magnitude else Z.of_N magnitude)%Z in
      Some (if safe_integer z then JNum z else JReal)
  | NFrac | NExpDigits => Some JReal
  | NMinus | NDot | NExp | NExpSign => None
  end.

Definition step_numeral (st : numeral_state) (negative : bool) (magnitude : N)
  (ps : parser_state) (c : N) : option (lexer_state * parser_state) :=
  let continue st' m := Some (LNumeral st' negative m, ps) in
  let finish :=
    match numeral_value st negative magnitude with
    | Some v => match feed ps (TScalar v) with
                | Some ps' => step_start ps' c
                | None => None
                end
    | None => None
    end in
  let dot := c =? 46 in
  let e := (c =? 101) || (c =? 69) in
  match st with
  | NMinus =>
      if c =? 48 then continue NZero 0
      else if is_digit c then continue NInt (c - 48)
      else None
  | NZero =>
      if dot then continue NDot magnitude
      else if e then continue NExp magnitude
      else if is_digit c then None
      else finish
  | NInt =>
      if is_digit c then continue NInt (10 * magnitude + (c - 48))
      else if dot then continue NDot magnitude
      else if e then continue NExp magnitude
      else finish
  | NDot => if is_digit c then continue NFrac magnitude else None
  | NFrac =>
      if is_digit c then continue NFrac magnitude
      else if e then continue NExp magnitude
      else finish
  | NExp =>
      if (c =? 43) || (c =? 45) then continue NExpSign magnitude
      else if is_digit c then continue NExpDigits magnitude
      else None
  | NExpSign => if is_digit c then continue NExpDigits magnitude else None
  | NExpDigits => if is_digit c then continue NExpDigits magnitude else finish
  end.

Definition step (st : lexer_state * parser_state) (c : N)
  : option (lexer_state * parser_state) :=
  let '(lx, ps) := st in
  match lx with
  | LStart => step_start ps c
  | LString acc =>
      if c =? quote_unit then emit ps (TScalar (JStr (rev acc)))
      else if c =? backslash then Some (LEscape acc, ps)
      else if c <? 32 then None
      else Some (LString (c :: acc), ps)
  | LEscape acc =>
      let unit u := Some (LString (u :: acc), ps) in
      if c =? quote_unit then unit quote_unit
      else if c =? backslash then unit backslash
      else if c =? 47 then unit 47
      else if c =? 98 then unit 8
      else if c =? 102 then unit 12
      else if c =? 110 then unit 10
      else if c =? 114 then unit 13
      else if c =? 116 then unit 9
      else if c =? 117 then Some (LUnicode acc 4 0, ps)
      else None
  | LUnicode acc needed v =>
      match hex_value c with
      | Some d =>
          match needed with
          | S (S k) => Some (LUnicode acc (S k) (16 * v + d), ps)
          | _ => Some (LString ((16 * v + d) :: acc), ps)
          end
      | None => None
      end
  | LLiteral rest v =>
      match rest with
      | [x] => if c =? x then emit ps (TScalar v) else None
      | x :: rest' => if c =? x then Some (LLiteral rest' v, ps) else None
      | [] => None
      end
  | LNumeral nst negative magnitude => step_numeral nst negative magnitude ps c
  end.

Fixpoint steps (st : option (lexer_state * parser_state)) (s : list N)
  : option (lexer_state * parser_state) :=
  match s with
  | [] => st
  | c :: rest =>
      match st with
      | Some st' => steps (step st' c) rest
      | None => None
      end
  end.

(** The end of the text: a numeral may end there, and one value must be
    complete. *)
Definition finish (st : lexer_state * parser_state) : option json :=
  let '(lx, ps) := st in
  let ps' :=
    match lx with
    | LStart => Some ps
    | LNumeral nst negative magnitude =>
        match numeral_value nst negative magnitude with
        | Some v => feed ps (TScalar v)
        | None => None
        end
    | _ => None
    end in
  match ps' with
  | Some (HaveValue v []) => Some v
  | _ => None
  end.

(** [JSON.parse(text)]; [None] is the SyntaxError. *)
Definition JSON_parse (text : list N) : option json :=
  match steps (Some (LStart, WantValue [])) text with
  | Some st => finish st
  | None => None
  end.

(** *** [as AuthState] *)

Fixpoint strings_of (l : list json) : option (list (list N)) :=
  match l with
  | [] => Some []
  | JStr s :: rest =>
      match strings_of rest with
      | Some ss => Some (s :: ss)
      | None => None
      end
  | _ => None
  end.

Definition names_are (names : list string) (fields : list (list N * json)) : bool :=
  forallb (fun p => units_eqb (js (fst p)) (fst (snd p))) (combine names fields).

(** The parsed value read at the type [AuthState]: an object with exactly
    the members of the interface, in its order, each of its type, the
    numbers safe integers. Any other value is outside the typed model. *)
Definition as_AuthState (v : json) : option AuthState :=
  match v with
  | JObj ([(_, JStr w); (_, JStr s); (_, JNum t); (_, JNum e);
           (_, JArr ps); (_, JStr n)] as fields) =>
      if names_are ["walletPublicKey"; "signature"; "timestamp"; "expiresAt";
                    "permissions"; "network"]%string fields
         && safe_integer t && safe_integer e
      then match strings_of ps with
           | Some p => Some (mkAuthState w s t e None p n)
           | None => None
           end
      else None
  | JObj ([(_, JStr w); (_, JStr s); (_, JNum t); (_, JNum e);
           (_, JStr r); (_, JArr ps); (_, JStr n)] as fields) =>
      if names_are ["walletPublicKey"; "signature"; "timestamp"; "expiresAt";
                    "refreshToken"; "permissions"; "network"]%string fields
         && safe_integer t && safe_integer e
      then match strings_of ps with
           | Some p => Some (mkAuthState w s t e (Some r) p n)
           | None => None
           end
      else None
  | _ => None
  end.

End Json.
Import Json.

(** ** The runtime, the backends and the manager's state *)

(** A value [runtime.getSetting] returns (or [None] for null). *)
Inductive setting :=
| SString (s : list N)
| SBool (b : bool)
| SNumber (z : Z).

(** [IAgentRuntime], as far as the code reads it. *)
Record Runtime := mkRuntime {
  getSetting : list N -> option setting;
  databaseAdapter : bool                 (* whether runtime.databaseAdapter is set *)
}.

Record World := mkWorld {
  authCache : gmap (list N) AuthState;   (* this.authCache *)
  runtime : option Runtime;              (* this.runtime, undefined before initialize *)
  files : gmap (list N) (list byte);     (* <cwd>/data/auth: file name bytes to contents *)
  database : gmap (list N) (list N);     (* the adapter's auth_state table: key to data *)
  now : Z;                               (* what Date.now() returns during a call *)
  entropy : nat -> block;                (* what the successive randomBytes(16) return *)
  draws : nat                            (* how many have been drawn *)
}.

(** Calls: state passing with exceptions; the state at a [Throw] is the state
    the exception left behind. *)
Definition M (A : Type) : Type := World -> outcome A * World.

Definition ret {A} (a : A) : M A := fun w => (Ok a, w).
Definition throw {A} (e : error) : M A := fun w => (Throw e, w).
Definition unmodelled {A} : M A := fun w => (Unmodelled, w).

Definition bind {A B} (m : M A) (k : A -> M B) : M B :=
  fun w =>
    match m w with
    | (Ok a, w') => k a w'
    | (Throw e, w') => (Throw e, w')
    | (Unmodelled, w') => (Unmodelled, w')
    end.

(** [try { m } catch (error) { handler }] *)
Definition try_catch {A} (m : M A) (handler : error -> M A) : M A :=
  fun w =>
    match m w with
    | (Throw e, w') => handler e w'
    | r => r
    end.

Definition lift {A} (o : outcome A) : M A := fun w => (o, w).

Notation "'let*' x ':=' m 'in' k" := (bind m (fun x => k))
  (at level 10, x name, m at level 100, k at level 200, only parsing).

Definition set_authCache (f : gmap (list N) AuthState -> gmap (list N) AuthState) : M unit :=
  fun w => (Ok tt, mkWorld (f (authCache w)) (runtime w) (files w) (database w)
                           (now w) (entropy w) (draws w)).

Definition set_runtime (r : Runtime) : M unit :=
  fun w => (Ok tt, mkWorld (authCache w) (Some r) (files w) (database w)
                           (now w) (entropy w) (draws w)).

Definition set_files (f : gmap (list N) (list byte) -> gmap (list N) (list byte)) : M unit :=
  fun w => (Ok tt, mkWorld (authCache w) (runtime w) (f (files w)) (database w)
                           (now w) (entropy w) (draws w)).

Definition set_database (f : gmap (list N) (list N) -> gmap (list N) (list N)) : M unit :=
  fun w => (Ok tt, mkWorld (authCache w) (runtime w) (files w) (f (database w))
                           (now w) (entropy w) (draws w)).

(** [Date.now()] *)
Definition Date_now : M Z := fun w => (Ok (now w), w).

(** [randomBytes(16)] *)
Definition randomBytes16 : M block :=
  fun w => (Ok (entropy w (draws w)),
            mkWorld (authCache w) (runtime w) (files w) (database w)
                    (now w) (entropy w) (S (draws w))).

(** ** utils/storage: [storeData] and [retrieveData] *)

Module Storage.

(** The bytes of the file name [`${key}.auth`]. *)
Definition file_name (key : list N) : list N :=
  map Byte.to_N (utf8_encode (key ++ js ".auth")).

(** The keys whose file lies in the storage directory itself: no path
    separator, no NUL, and a name of at most 255 bytes. *)
Definition plain_file_name (key : list N) : bool :=
  forallb (fun c => negb (c =? 47) && negb (c =? 0)) key
  && (length (file_name key) <=? 255)%nat.

(** [storeInFile(key, data, runtime)]: [None] deletes the file if there is
    one. *)
Definition storeInFile (key : list N) (data : option (list N)) : M unit :=
  if plain_file_name key then
    match data with
    | None => set_files (delete (file_name key))
    | Some d => set_files (insert (file_name key) (utf8_encode d))
    end
  else unmodelled.

(** [retrieveFromFile(key, runtime)] *)
Definition retrieveFromFile (key : list N) : M (option (list N)) :=
  if plain_file_name key then
    fun w => (Ok (option_map utf8_decode (files w !! file_name key)), w)
  else unmodelled.

(** [storeInDatabase(key, data, runtime)] *)
Definition storeInDatabase (key : list N) (data : option (list N)) (r : Runtime) : M unit :=
  if databaseAdapter r then
    match data with
    | None => set_database (delete key)
    | Some d => set_database (insert key d)
    end
  else throw NoDatabaseAdapter.

(** [retrieveFromDatabase(key, runtime)] *)
Definition retrieveFromDatabase (key : list N) (r : Runtime) : M (option (list N)) :=
  if databaseAdapter r then fun w => (Ok (database w !! key), w)
  else throw NoDatabaseAdapter.

(** [storeData(key, data, storageType, runtime)] *)
Definition storeData (key : list N) (data : option (list N)) (storageType : list N)
    (r : Runtime) : M unit :=
  if units_eqb storageType (js "encrypted-file") then storeInFile key data
  else if units_eqb storageType (js "database") then storeInDatabase key data r
  else if units_eqb storageType (js "memory") then ret tt
  else throw (UnsupportedStorageType storageType).

(** [retrieveData(key, storageType, runtime)] *)
Definition retrieveData (key : list N) (storageType : list N) (r : Runtime)
  : M (option (list N)) :=
  if units_eqb storageType (js "encrypted-file") then retrieveFromFile key
  else if units_eqb storageType (js "database") then retrieveFromDatabase key r
  else if units_eqb storageType (js "memory") then ret None
  else throw (UnsupportedStorageType storageType).

End Storage.
Import Storage.

(** ** services/authStateManager: [AuthStateManager] *)

Module AuthStateManager.

(** JavaScript truthiness of what [getSetting] returns. *)
Definition truthy (v : option setting) : bool :=
  match v with
  | None => false
  | Some (SString s) => negb (units_eqb s [])
  | Some (SBool b) => b
  | Some (SNumber z) => negb (z =? 0)%Z
  end.

(** [v || fallback] *)
Definition or_default (v : option setting) (fallback : string) : setting :=
  match v with
  | Some x => if truthy v then x else SString (js fallback)
  | None => SString (js fallback)
  end.

(** [this.runtime.getSetting(name) || fallback] *)
Definition setting_or (name fallback : string) : M setting :=
  fun w =>
    match runtime w with
    | None => (Throw RuntimeUndefined, w)
    | Some r => (Ok (or_default (getSetting r (js name)) fallback), w)
    end.

(** [this.runtime.getSetting(name)] *)
Definition read_setting (name : string) : M (option setting) :=
  fun w =>
    match runtime w with
    | None => (Throw RuntimeUndefined, w)
    | Some r => (Ok (getSetting r (js name)), w)
    end.

(** [this.runtime], passed on after a setting was read from it. *)
Definition this_runtime : M Runtime :=
  fun w =>
    match runtime w with
    | None => (Throw RuntimeUndefined, w)
    | Some r => (Ok r, w)
    end.

(** A setting used where a string is compared or printed. *)
Definition to_string (v : setting) : list N :=
  match v with
  | SString s => s
  | SBool b => if b then js "true" else js "false"
  | SNumber z => number_to_string z
  end.

(** [parseInt(v, 10)] when the result is a safe integer: a number is
    converted to a string first, which gives its digits when it is a safe
    integer; [None] is NaN, or outside the safe integers. *)
Definition parseInt (v : setting) : option Z :=
  match v with
  | SString s => parseInt10 s
  | SNumber z => if safe_integer z then Some z else None
  | SBool _ => None
  end.

(** [JSON.stringify(authState)] for a state whose numbers are safe integers. *)
Definition numbers_safe (authState : AuthState) : bool :=
  safe_integer (timestamp authState) && safe_integer (expiresAt authState).

Definition stringify (authState : AuthState) : M (list N) :=
  if numbers_safe authState then ret (JSON_stringify authState) else unmodelled.

(** The call [encryptData(data, key)] with the key as the setting gives it. *)
Definition call_encryptData (data : list N) (key : setting) : M (list N) :=
  match key with
  | SString k => let* iv := randomBytes16 in lift (encryptData iv data k)
  | _ => throw NotAFunction
  end.

(** The call [decryptData(encryptedData, key)]. *)
Definition call_decryptData (encryptedData : list N) (key : setting) : M (list N) :=
  match key with
  | SString k => lift (decryptData encryptedData k)
  | _ => throw NotAFunction
  end.

(** [initialize(runtime)] *)
Definition initialize (r : Runtime) : M unit := set_runtime r.

(** [isValid(authState)]: [Date.now() < authState.expiresAt] *)
Definition isValid (authState : AuthState) : M bool :=
  let* t := Date_now in ret (t <? expiresAt authState)%Z.

(** [saveAuthState(serviceKey, authState)] *)
Definition saveAuthState (serviceKey : list N) (authState : AuthState) : M unit :=
  (* Cache in memory *)
  let* _ := set_authCache (insert serviceKey authState) in
  (* Encrypt sensitive data *)
  let* text := stringify authState in
  let* key := setting_or "ENCRYPTION_KEY" "default-key" in
  let* encryptedState := call_encryptData text key in
  (* Store in persistent storage *)
  let* storageType := setting_or "authStateStorageType" "encrypted-file" in
  let* r := this_runtime in
  storeData serviceKey (Some encryptedState) (to_string storageType) r.

(** [refreshAuthState(serviceKey, authState)] *)
Definition refreshAuthState (serviceKey : list N) (authState : AuthState)
  : M (option AuthState) :=
  try_catch
    (let* v := setting_or "authStateTTL" "86400" in
     match parseInt v with
     | None => unmodelled
     | Some seconds =>
         let ttl := (seconds * 1000)%Z in
         if safe_integer ttl then
           let* t1 := Date_now in
           let* t2 := Date_now in
           let refreshedState :=
             mkAuthState (walletPublicKey authState) (signature authState)
                         t1 (t2 + ttl)%Z
                         (refreshToken authState) (permissions authState)
                         (network authState) in
           let* _ := saveAuthState serviceKey refreshedState in
           ret (Some refreshedState)
         else unmodelled
     end)
    (fun _ => ret None).

(** [authState.refreshToken] as a condition. *)
Definition has_refreshToken (authState : AuthState) : bool :=
  match refreshToken authState with
  | Some t => negb (units_eqb t [])
  | None => false
  end.

(** [v === true] *)
Definition strictly_true (v : option setting) : bool :=
  match v with
  | Some (SBool true) => true
  | _ => false
  end.

(** [loadAuthState], the [try { ... } catch] block: parse the decrypted
    text, validate, refresh. *)
Definition parse_and_validate (serviceKey decryptedState : list N)
  : M (option AuthState) :=
  try_catch
    (match JSON_parse decryptedState with
     | None => throw JsonSyntaxError
     | Some v =>
         match as_AuthState v with
         | None => unmodelled
         | Some authState =>
             (* Validate and cache if still valid *)
             let* valid := isValid authState in
             if valid then
               let* _ := set_authCache (insert serviceKey authState) in
               ret (Some authState)
             else
               (* Try to refresh if possible *)
               let* auto :=
                 if has_refreshToken authState
                 then let* v := read_setting "autoRefresh" in
                      ret (strictly_true v)
                 else ret false in
               if auto then
                 let* refreshedState := refreshAuthState serviceKey authState in
                 match refreshedState with
                 | Some s => ret (Some s)
                 | None => ret None
                 end
               else ret None
         end
     end)
    (fun _ => ret None).

(** [loadAuthState], after the cache check: retrieve, decrypt, and the
    [try] block. *)
Definition load_from_storage (serviceKey : list N) : M (option AuthState) :=
  (* Try loading from persistent storage *)
  let* storageType := setting_or "authStateStorageType" "encrypted-file" in
  let* r := this_runtime in
  let* encryptedState := retrieveData serviceKey (to_string storageType) r in
  match encryptedState with
  | None | Some [] => ret None
  | Some blob =>
      (* Decrypt data *)
      let* key := setting_or "ENCRYPTION_KEY" "default-key" in
      let* decryptedState := call_decryptData blob key in
      parse_and_validate serviceKey decryptedState
  end.

(** [loadAuthState(serviceKey)] *)
Definition loadAuthState (serviceKey : list N) : M (option AuthState) :=
  (* Check memory cache first *)
  let* cached := (fun w => (Ok (authCache w !! serviceKey), w)) in
  match cached with
  | Some cachedState =>
      let* valid := isValid cachedState in
      if valid then ret (Some cachedState) else load_from_storage serviceKey
  | None => load_from_storage serviceKey
  end.

(** [clearAuthState(serviceKey)]. [delete] removes an own property; the
    key ["__proto__"] is kept in the object's prototype slot, which
    [delete] leaves alone. *)
Definition clearAuthState (serviceKey : list N) : M unit :=
  let* _ := set_authCache (fun c => if units_eqb serviceKey (js "__proto__") then c
                             else delete serviceKey c) in
  let* storageType := setting_or "authStateStorageType" "encrypted-file" in
  let* r := this_runtime in
  storeData serviceKey None (to_string storageType) r.

End AuthStateManager.
Import AuthStateManager.

(** ** utils/validation *)

Module Validation.

(** [generateNonce()]: [randomBytes(16).toString("hex")] *)
Definition generateNonce : M (list N) :=
  let* bytes := randomBytes16 in ret (hex_encode (bytes_of_block bytes)).

(** The class [[1-9A-HJ-NP-Za-km-z]] of the public key pattern. *)
Definition is_base58 (c : N) : bool :=
  ((49 <=? c) && (c <=? 57)) || ((65 <=? c) && (c <=? 72))
  || ((74 <=? c) && (c <=? 78)) || ((80 <=? c) && (c <=? 90))
  || ((97 <=? c) && (c <=? 107)) || ((109 <=? c) && (c <=? 122)).

(** [validatePublicKey(publicKey)]: the whole string is 32 to 44 units of
    the class. *)
Definition validatePublicKey (publicKey : list N) : bool :=
  (32 <=? length publicKey)%nat && (length publicKey <=? 44)%nat
  && forallb is_base58 publicKey.

(** [validateAuthState(authState)] for a value of the interface: its
    strings are strings, its numbers numbers and its permissions an array. *)
Definition validateAuthState (authState : AuthState) : M bool :=
  (* Check if the auth state has all required fields *)
  if units_eqb (walletPublicKey authState) []
     || units_eqb (signature authState) []
     || (timestamp authState =? 0)%Z
     || (expiresAt authState =? 0)%Z
     || units_eqb (network authState) []
  then ret false
  (* Check if the public key is valid *)
  else if negb (validatePublicKey (walletPublicKey authState)) then ret false
  else
    (* Check if the timestamp is valid *)
    if (timestamp authState <=? 0)%Z then ret false
    else
      let* t := Date_now in
      if (t <? timestamp authState)%Z then ret false
      (* Check if the expiration is valid *)
      else if (expiresAt authState <=? timestamp authState)%Z then ret false
      else ret true.

End Validation.
Import Validation.

(* ===================================================================== *)
(** * Part II. Vocabulary of the statements, and scenario data           *)
(* ===================================================================== *)

(** The storage type, the key and the time-to-live a runtime configures. *)
Definition storage_type (r : Runtime) : list N :=
  to_string (or_default (getSetting r (js "authStateStorageType")) "encrypted-file").

Definition encryption_key (r : Runtime) : setting :=
  or_default (getSetting r (js "ENCRYPTION_KEY")) "default-key".

(** The configured time-to-live in seconds, when it is a number whose
    milliseconds are a safe integer. *)
Definition ttl_seconds (r : Runtime) : option Z :=
  match parseInt (or_default (getSetting r (js "authStateTTL")) "86400") with
  | Some seconds => if safe_integer (seconds * 1000) then Some seconds else None
  | None => None
  end.

(** What the configured backend returns for a session key. *)
Definition backend_lookup (w : World) (k : list N) : outcome (option (list N)) :=
  match runtime w with
  | Some r => fst (retrieveData k (storage_type r) r w)
  | None => Throw RuntimeUndefined
  end.

(** The record the backend holds for a session key: the blob it returns,
    decrypted with the configured key and parsed. *)
Definition stored_record (w : World) (k : list N) : option AuthState :=
  match runtime w, backend_lookup w k with
  | Some r, Ok (Some (c :: blob)) =>
      match encryption_key r with
      | SString key =>
          match decryptData (c :: blob) key with
          | Ok text =>
              match JSON_parse text with
              | Some v => as_AuthState v
              | None => None
              end
          | _ => None
          end
      | _ => None
      end
  | _, _ => None
  end.

(** Whether the cache holds a record for the key that is still valid. *)
Definition cached_valid (w : World) (k : list N) : bool :=
  match authCache w !! k with
  | Some c => (now w <? expiresAt c)%Z
  | None => false
  end.

(** The in-memory cache emptied (a restart of the manager), everything else
    as it is. *)
Definition with_empty_cache (w : World) : World :=
  mkWorld ∅ (runtime w) (files w) (database w) (now w) (entropy w) (draws w).

(** The clock set to [t]. *)
Definition at_time (t : Z) (w : World) : World :=
  mkWorld (authCache w) (runtime w) (files w) (database w) t (entropy w) (draws w).

(** The record [refreshAuthState] builds from [a] at time [t] with a
    time-to-live of [seconds]. *)
Definition refreshed (a : AuthState) (t seconds : Z) : AuthState :=
  mkAuthState (walletPublicKey a) (signature a) t (t + seconds * 1000)%Z
              (refreshToken a) (permissions a) (network a).

(** The strings of a record are strings: their units are 16-bit. *)
Definition units16 (s : list N) : bool := forallb (fun c => c <? 0x10000) s.

Definition record_strings16 (a : AuthState) : bool :=
  units16 (walletPublicKey a) && units16 (signature a)
  && match refreshToken a with Some t => units16 t | None => true end
  && forallb units16 (permissions a) && units16 (network a).

(** Where reading a numeral starts: after a minus sign, or between tokens. *)
Definition numeral_start (negative : bool) (ps : parser_state)
  : lexer_state * parser_state :=
  if negative then (LNumeral NMinus true 0, ps) else (LStart, ps).

(** *** Scenario data *)

Module Scenario.

Definition zero_block : block := Blk zero_word zero_word zero_word zero_word.

(** A runtime with the given storage type and [autoRefresh] setting, and a
    database adapter or none; every other setting is absent. *)
Definition a_runtime (storageType : string) (autoRefresh : option setting)
    (adapter : bool) : Runtime :=
  mkRuntime
    (fun name =>
       if units_eqb name (js "authStateStorageType") then Some (SString (js storageType))
       else if units_eqb name (js "autoRefresh") then autoRefresh
       else None)
    adapter.

(** A manager that was initialized with [r]: empty cache, empty backends. *)
Definition fresh (r : Runtime) (t : Z) : World :=
  mkWorld ∅ (Some r) ∅ ∅ t (fun _ => zero_block) 0.

(** A manager before [initialize]. *)
Definition uninitialized (t : Z) : World :=
  mkWorld ∅ None ∅ ∅ t (fun _ => zero_block) 0.

Definition session : list N := js "solana-auth".

(** A record issued at 1000 that expires at 5000, with a refresh token. *)
Definition record : AuthState :=
  mkAuthState (js "5Zzguz4NsSRFxGkHfM4FmsFpGZiCDtY72dQRfKGrNMcH") (js "3c1e9550")
              1000 5000 (Some (js "refresh-token"))
              [js "transfer"; js "sign"] (js "devnet").

(** The same record without a refresh token. *)
Definition record_no_token : AuthState :=
  mkAuthState (walletPublicKey record) (signature record) 1000 5000 None
              (permissions record) (network record).

(** The world after [record] was saved at time 2000 by a manager
    initialized with [r], and the manager restarted. *)
Definition saved (r : Runtime) : World :=
  with_empty_cache (snd (saveAuthState session record (fresh r 2000))).

(** A manager whose file for [session] holds text that is no envelope. *)
Definition corrupted (r : Runtime) : World :=
  mkWorld ∅ (Some r) {[ file_name session := utf8_encode (js "not an envelope") ]} ∅
          2000 (fun _ => zero_block) 0.

(** A manager whose file for [session] holds an envelope of a payload that
    is not JSON. *)
Definition not_json_text : list N := js "{walletPublicKey".

Definition not_json_blob : list N :=
  match encryptData zero_block not_json_text (js "default-key") with
  | Ok blob => blob
  | _ => []
  end.


(** The envelope of a plaintext that is one lone surrogate. *)
Definition lone_envelope : list N :=
  match encryptData zero_block [0xD800] (js "default-key") with
  | Ok blob => blob
  | _ => []
  end.

End Scenario.

(* ===================================================================== *)
(** * Part III. Properties                                               *)
(* ===================================================================== *)

(** ** Basic facts *)

Lemma units_eqb_eq (a b : list N) : units_eqb a b = true <-> a = b.
Proof.
  revert b. induction a as [|x a IH]; intros [|y b]; simpl; split; try congruence; auto.
  - intros H. apply andb_true_iff in H as [Hx Hab].
    apply N.eqb_eq in Hx. apply IH in Hab. congruence.
  - intros H. injection H as -> ->. rewrite N.eqb_refl. simpl. now apply IH.
Qed.

Lemma units_eqb_refl (a : list N) : units_eqb a a = true.
Proof. now apply units_eqb_eq. Qed.

Lemma units_eqb_neq (a b : list N) : a <> b -> units_eqb a b = false.
Proof.
  intros H. destruct (units_eqb a b) eqn:E; [|reflexivity].
  apply units_eqb_eq in E. contradiction.
Qed.

Lemma bind_Ok {A B} (m : M A) (k : A -> M B) w a w' :
  m w = (Ok a, w') -> bind m k w = k a w'.
Proof. intros H. unfold bind. now rewrite H. Qed.

Lemma bind_Throw {A B} (m : M A) (k : A -> M B) w e w' :
  m w = (Throw e, w') -> bind m k w = (Throw e, w').
Proof. intros H. unfold bind. now rewrite H. Qed.

Lemma setting_or_Ok name fallback w r :
  runtime w = Some r ->
  setting_or name fallback w = (Ok (or_default (getSetting r (js name)) fallback), w).
Proof. intros H. unfold setting_or. now rewrite H. Qed.

Lemma read_setting_Ok name w r :
  runtime w = Some r -> read_setting name w = (Ok (getSetting r (js name)), w).
Proof. intros H. unfold read_setting. now rewrite H. Qed.

Lemma this_runtime_Ok w r : runtime w = Some r -> this_runtime w = (Ok r, w).
Proof. intros H. unfold this_runtime. now rewrite H. Qed.

(** Reading the backend changes nothing. *)
Lemma retrieveData_world k st r w : snd (retrieveData k st r w) = w.
Proof.
  unfold retrieveData, retrieveFromFile, retrieveFromDatabase, unmodelled, throw, ret.
  repeat match goal with |- context [if ?c then _ else _] => destruct c end; reflexivity.
Qed.

Lemma retrieveData_eq k st r w : retrieveData k st r w = (fst (retrieveData k st r w), w).
Proof. rewrite <- (retrieveData_world k st r w) at 3. apply surjective_pairing. Qed.

(** ** [isValid] *)

(** C9. For every record R, [isValid R] returns true exactly when the clock
    is before [R.expiresAt]; it returns in every state of the manager (cache
    empty or not, initialized or not) and leaves the state as it is. *)
Theorem isValid_is_now_before_expiresAt (R : AuthState) (w : World) :
  isValid R w = (Ok (now w <? expiresAt R)%Z, w)
  /\ ((now w <? expiresAt R)%Z = true <-> (now w < expiresAt R)%Z).
Proof. split; [reflexivity | apply Z.ltb_lt]. Qed.

(** ** The storage dispatch *)

(** C5, as the code has it. A storage type other than the three supported
    ones is not looked at by [initialize], which succeeds with any runtime;
    every [storeData] and [retrieveData] call with it throws "Unsupported
    storage type" and changes nothing. *)
Theorem unsupported_storage_type_fails_at_each_use
    (st : list N) (r : Runtime) (key : list N) (data : option (list N)) (w : World) :
  st <> js "encrypted-file" -> st <> js "database" -> st <> js "memory" ->
  fst (initialize r w) = Ok tt
  /\ storeData key data st r w = (Throw (UnsupportedStorageType st), w)
  /\ retrieveData key st r w = (Throw (UnsupportedStorageType st), w).
Proof.
  intros Hf Hd Hm. split; [reflexivity|].
  unfold storeData, retrieveData.
  rewrite !(units_eqb_neq st) by assumption. split; reflexivity.
Qed.

Lemma unsupported_storage_type_fails_at_each_use_witness :
  fst (initialize (Scenario.a_runtime "bogus" None false) (Scenario.uninitialized 0)) = Ok tt
  /\ storeData Scenario.session None (js "bogus") (Scenario.a_runtime "bogus" None false)
       (Scenario.uninitialized 0)
     = (Throw (UnsupportedStorageType (js "bogus")), Scenario.uninitialized 0)
  /\ retrieveData Scenario.session (js "bogus") (Scenario.a_runtime "bogus" None false)
       (Scenario.uninitialized 0)
     = (Throw (UnsupportedStorageType (js "bogus")), Scenario.uninitialized 0).
Proof.
  apply (unsupported_storage_type_fails_at_each_use (js "bogus"));
    vm_compute; discriminate.
Defined.

(** C5, counterexample. [initialize] accepts a runtime that configures the
    storage type "bogus"; the failure comes with the first save. *)
Lemma unsupported_backend_passes_initialize :
  fst (initialize (Scenario.a_runtime "bogus" None false) (Scenario.uninitialized 2000)) = Ok tt
  /\ fst (saveAuthState Scenario.session Scenario.record
            (snd (initialize (Scenario.a_runtime "bogus" None false)
                    (Scenario.uninitialized 2000))))
     = Throw (UnsupportedStorageType (js "bogus")).
Proof. split; vm_compute; reflexivity. Qed.

(** ** Key normalization *)

Lemma blocks_of_bytes_block (b : block) : blocks_of_bytes (bytes_of_block b) = Some [b].
Proof. destruct b as [[] [] [] []]. reflexivity. Qed.

(** C8, at the failing input. The one-unit key U+00E9 is padded to 32 units
    that take 33 bytes in UTF-8, and [encryptData] throws "Invalid key
    length" whatever the data and the initialization vector. *)
Theorem non_ascii_key_is_not_32_bytes (iv : block) (data : list N) :
  length (normalizedKey [0xE9]) = 33%nat
  /\ encryptData iv data [0xE9] = Throw InvalidKeyLength.
Proof.
  split; [reflexivity|].
  unfold encryptData, createCipheriv. rewrite blocks_of_bytes_block. reflexivity.
Qed.

(** ** [loadAuthState], step by step *)

Lemma backend_lookup_Ok w k r o :
  runtime w = Some r -> backend_lookup w k = o ->
  retrieveData k (storage_type r) r w = (o, w).
Proof.
  intros Hr H. unfold backend_lookup in H. rewrite Hr in H.
  rewrite retrieveData_eq. now rewrite H.
Qed.

Lemma backend_lookup_runtime w k o :
  backend_lookup w k = Ok o -> exists r, runtime w = Some r.
Proof.
  unfold backend_lookup. destruct (runtime w) as [r|]; [eauto | discriminate].
Qed.

(** Without a valid cached record, [loadAuthState] goes to the backend. *)
Lemma loadAuthState_cache_miss k w :
  cached_valid w k = false -> loadAuthState k w = load_from_storage k w.
Proof.
  unfold cached_valid, loadAuthState, bind, isValid, Date_now, ret, bind.
  destruct (authCache w !! k) as [c|]; [|reflexivity].
  intros ->. reflexivity.
Qed.

Lemma loadAuthState_cache_hit k w c :
  authCache w !! k = Some c -> (now w < expiresAt c)%Z ->
  loadAuthState k w = (Ok (Some c), w).
Proof.
  intros Hc Hv. apply Z.ltb_lt in Hv.
  unfold loadAuthState, bind, isValid, Date_now, ret, bind. now rewrite Hc, Hv.
Qed.

Lemma load_from_storage_absent k w :
  backend_lookup w k = Ok None -> load_from_storage k w = (Ok None, w).
Proof.
  intros Hb. destruct (backend_lookup_runtime _ _ _ Hb) as [r Hr].
  unfold load_from_storage.
  rewrite (bind_Ok _ _ _ _ _ (setting_or_Ok _ _ _ _ Hr)).
  rewrite (bind_Ok _ _ _ _ _ (this_runtime_Ok _ _ Hr)).
  rewrite (bind_Ok _ _ _ _ _ (backend_lookup_Ok _ _ _ _ Hr Hb)).
  reflexivity.
Qed.

Lemma load_from_storage_blob k w r c blob key :
  runtime w = Some r ->
  backend_lookup w k = Ok (Some (c :: blob)) ->
  encryption_key r = SString key ->
  load_from_storage k w =
  match decryptData (c :: blob) key with
  | Ok text => parse_and_validate k text w
  | Throw e => (Throw e, w)
  | Unmodelled => (Unmodelled, w)
  end.
Proof.
  intros Hr Hb Hk. unfold load_from_storage.
  rewrite (bind_Ok _ _ _ _ _ (setting_or_Ok _ _ _ _ Hr)).
  rewrite (bind_Ok _ _ _ _ _ (this_runtime_Ok _ _ Hr)).
  rewrite (bind_Ok _ _ _ _ _ (backend_lookup_Ok _ _ _ _ Hr Hb)).
  rewrite (bind_Ok _ _ _ _ _ (setting_or_Ok _ _ _ _ Hr)).
  fold (encryption_key r). rewrite Hk.
  unfold call_decryptData, lift, bind.
  destruct (decryptData (c :: blob) key); reflexivity.
Qed.

Lemma parse_and_validate_not_json k text w :
  JSON_parse text = None -> parse_and_validate k text w = (Ok None, w).
Proof. intros H. unfold parse_and_validate. rewrite H. reflexivity. Qed.

(** C10. If the cache holds an expired record for [k] (with or without a
    refresh token) and the backend returns absent for [k], [loadAuthState k]
    returns absent and leaves the whole state as it is: the expired cache
    entry stays, nothing is saved, no randomness is drawn, so no refresh was
    attempted. *)
Theorem expired_cache_and_absent_backend (k : list N) (w : World) (c : AuthState) :
  authCache w !! k = Some c ->
  (expiresAt c <= now w)%Z ->
  backend_lookup w k = Ok None ->
  loadAuthState k w = (Ok None, w).
Proof.
  intros Hc He Hb.
  rewrite loadAuthState_cache_miss.
  - now apply load_from_storage_absent.
  - unfold cached_valid. rewrite Hc. now apply Z.ltb_ge.
Qed.

(** ** [saveAuthState] and [refreshAuthState], step by step *)

Lemma createCipheriv_Ok key iv ctx :
  createCipheriv key iv = Ok ctx -> length key = 32%nat.
Proof.
  unfold createCipheriv. destruct (blocks_of_bytes iv) as [[|b [|]]|]; try discriminate.
  destruct (length key =? 32)%nat eqn:E; [|discriminate].
  intros _. now apply Nat.eqb_eq.
Qed.

Lemma decryptData_Ok_key blob key text :
  decryptData blob key = Ok text -> length (normalizedKey key) = 32%nat.
Proof.
  unfold decryptData.
  destruct (createCipheriv _ _) as [ctx| |] eqn:E; try discriminate.
  intros _. eapply createCipheriv_Ok; eauto.
Qed.

Lemma encryptData_Ok iv data key :
  length (normalizedKey key) = 32%nat ->
  exists blob, encryptData iv data key = Ok blob.
Proof.
  intros H. unfold encryptData, createCipheriv.
  rewrite blocks_of_bytes_block, H. simpl. eauto.
Qed.


(** What [saveAuthState] does step by step, for a runtime whose key is a
    string. *)
Lemma saveAuthState_steps k a w r key :
  runtime w = Some r ->
  encryption_key r = SString key ->
  numbers_safe a = true ->
  saveAuthState k a w =
  let w1 := mkWorld (<[k:=a]> (authCache w)) (runtime w) (files w) (database w)
                    (now w) (entropy w) (S (draws w)) in
  match encryptData (entropy w (draws w)) (JSON_stringify a) key with
  | Ok blob => storeData k (Some blob) (storage_type r) r w1
  | Throw e => (Throw e, w1)
  | Unmodelled => (Unmodelled, w1)
  end.
Proof.
  intros Hr Hk Hsafe. unfold saveAuthState.
  unfold bind at 1. unfold set_authCache at 1.
  set (w0 := mkWorld (<[k:=a]> (authCache w)) (runtime w) (files w) (database w)
                    (now w) (entropy w) (draws w)).
  assert (Hr0 : runtime w0 = Some r) by exact Hr.
  unfold stringify. rewrite Hsafe. unfold bind at 1. unfold ret at 1.
  rewrite (bind_Ok _ _ _ _ _ (setting_or_Ok _ _ _ _ Hr0)).
  fold (encryption_key r). rewrite Hk.
  unfold call_encryptData. unfold bind at 1. unfold bind at 1.
  unfold randomBytes16, lift. cbn [authCache runtime files database now entropy draws w0].
  destruct (encryptData (entropy w (draws w)) (JSON_stringify a) key) as [blob| |];
    try reflexivity.
  set (w1 := mkWorld _ _ _ _ _ _ _).
  assert (Hr1 : runtime w1 = Some r) by exact Hr.
  rewrite (bind_Ok _ _ _ _ _ (setting_or_Ok _ _ _ _ Hr1)).
  rewrite (bind_Ok _ _ _ _ _ (this_runtime_Ok _ _ Hr1)).
  reflexivity.
Qed.

Lemma refreshAuthState_steps k a w r seconds :
  runtime w = Some r ->
  ttl_seconds r = Some seconds ->
  refreshAuthState k a w =
  match saveAuthState k (refreshed a (now w) seconds) w with
  | (Ok _, w') => (Ok (Some (refreshed a (now w) seconds)), w')
  | (Throw _, w') => (Ok None, w')
  | (Unmodelled, w') => (Unmodelled, w')
  end.
Proof.
  intros Hr Ht. unfold refreshAuthState, try_catch.
  rewrite (bind_Ok _ _ _ _ _ (setting_or_Ok _ _ _ _ Hr)).
  unfold ttl_seconds in Ht.
  destruct (parseInt _) as [s|]; [|discriminate].
  destruct (safe_integer (s * 1000)) eqn:Hsafe; [|discriminate].
  injection Ht as ->. cbv zeta.
  unfold bind at 1. unfold Date_now at 1. unfold bind at 1. unfold Date_now at 1.
  fold (refreshed a (now w) seconds).
  unfold bind. destruct (saveAuthState k (refreshed a (now w) seconds) w) as [[[]| |] w'];
    reflexivity.
Qed.

(** C6, as the code has it. If the save that [refreshAuthState] performs
    throws, [refreshAuthState] catches the exception and returns absent. *)
Theorem refresh_swallows_save_failure
    (k : list N) (a : AuthState) (w : World) (r : Runtime) (seconds : Z) (e : error) :
  runtime w = Some r ->
  ttl_seconds r = Some seconds ->
  fst (saveAuthState k (refreshed a (now w) seconds) w) = Throw e ->
  fst (refreshAuthState k a w) = Ok None.
Proof.
  intros Hr Ht Hs. rewrite (refreshAuthState_steps _ _ _ _ _ Hr Ht).
  destruct (saveAuthState _ _ _) as [[| |] w']; simpl in *; congruence.
Qed.

(** [refreshAuthState] never throws. *)
Lemma refreshAuthState_never_throws k a w e : fst (refreshAuthState k a w) <> Throw e.
Proof.
  unfold refreshAuthState, try_catch.
  destruct (bind _ _ w) as [[| |] w']; simpl; discriminate.
Qed.

Lemma parse_and_validate_record k text w v R :
  JSON_parse text = Some v -> as_AuthState v = Some R ->
  parse_and_validate k text w =
  if (now w <? expiresAt R)%Z then
    (Ok (Some R), mkWorld (<[k:=R]> (authCache w)) (runtime w) (files w) (database w)
                          (now w) (entropy w) (draws w))
  else if has_refreshToken R then
    match runtime w with
    | None => (Ok None, w)
    | Some r =>
        if strictly_true (getSetting r (js "autoRefresh")) then
          match refreshAuthState k R w with
          | (Ok o, w') => (Ok o, w')
          | (Throw _, w') => (Ok None, w')
          | (Unmodelled, w') => (Unmodelled, w')
          end
        else (Ok None, w)
    end
  else (Ok None, w).
Proof.
  intros Hp Ha. unfold parse_and_validate, try_catch. rewrite Hp, Ha.
  unfold bind at 1. unfold isValid at 1. unfold bind at 1. unfold Date_now, ret at 1.
  destruct (now w <? expiresAt R)%Z; [reflexivity|].
  destruct (has_refreshToken R); [|reflexivity].
  unfold bind at 1. unfold bind at 1. unfold read_setting.
  destruct (runtime w) as [r|]; [|reflexivity].
  unfold ret at 1.
  destruct (strictly_true _); [|reflexivity].
  unfold bind. destruct (refreshAuthState k R w) as [[[s|]| |] w']; reflexivity.
Qed.

(** The steps of [loadAuthState] down to the record the backend holds. *)
Lemma loadAuthState_stored_record k w R :
  cached_valid w k = false ->
  stored_record w k = Some R ->
  exists r key text v,
    runtime w = Some r /\ encryption_key r = SString key
    /\ length (normalizedKey key) = 32%nat
    /\ (exists b, fst (retrieveData k (storage_type r) r w) = Ok (Some b))
    /\ JSON_parse text = Some v /\ as_AuthState v = Some R
    /\ loadAuthState k w = parse_and_validate k text w.
Proof.
  intros Hc Hs. unfold stored_record in Hs.
  destruct (runtime w) as [r|] eqn:Hr; [|discriminate].
  destruct (backend_lookup w k) as [[[|c blob]|]| |] eqn:Hb; try discriminate.
  destruct (encryption_key r) as [key| |] eqn:Hk; try discriminate.
  destruct (decryptData (c :: blob) key) as [text| |] eqn:Hd; try discriminate.
  destruct (JSON_parse text) as [v|] eqn:Hp; [|discriminate].
  exists r, key, text, v. repeat split; auto.
  - eapply decryptData_Ok_key; eauto.
  - exists (c :: blob). unfold backend_lookup in Hb. now rewrite Hr in Hb.
  - rewrite (loadAuthState_cache_miss _ _ Hc).
    rewrite (load_from_storage_blob _ _ _ _ _ _ Hr Hb Hk). now rewrite Hd.
Qed.






(** The call of [decryptData] stands before the [try] block: a stored blob
    that is no envelope, or whose ciphertext has an odd number of digits,
    makes [decryptData] throw, and [loadAuthState] throws with it. *)
Lemma decryption_failure_reaches_the_caller :
  fst (loadAuthState Scenario.session
         (Scenario.corrupted (Scenario.a_runtime "encrypted-file" None false)))
  = Throw InvalidIV
  /\ decryptData (Scenario.not_json_blob ++ [97]) (js "default-key") = Throw InvalidArgValue.
Proof. split; vm_compute; reflexivity. Qed.

Lemma expired_cache_and_absent_backend_witness :
  loadAuthState Scenario.session
    (at_time 6000 (snd (saveAuthState Scenario.session Scenario.record
                          (Scenario.fresh (Scenario.a_runtime "memory" (Some (SBool true)) false) 2000))))
  = (Ok None,
     at_time 6000 (snd (saveAuthState Scenario.session Scenario.record
                          (Scenario.fresh (Scenario.a_runtime "memory" (Some (SBool true)) false) 2000)))).
Proof.
  apply (expired_cache_and_absent_backend Scenario.session _ Scenario.record);
    vm_compute; solve [reflexivity | discriminate].
Defined.

Lemma refresh_swallows_save_failure_witness :
  fst (refreshAuthState Scenario.session Scenario.record
         (Scenario.fresh (Scenario.a_runtime "database" (Some (SBool true)) false) 6000))
  = Ok None.
Proof.
  apply (refresh_swallows_save_failure Scenario.session Scenario.record
           (Scenario.fresh (Scenario.a_runtime "database" (Some (SBool true)) false) 6000)
           (Scenario.a_runtime "database" (Some (SBool true)) false) 86400 NoDatabaseAdapter);
    vm_compute; reflexivity.
Defined.

(** C6, counterexample. With the database backend configured and no adapter,
    the save inside [refreshAuthState] throws; [refreshAuthState] returns
    absent instead of throwing, and the cache then holds the refreshed record
    while the database holds nothing. *)
Lemma refresh_failure_is_not_raised :
  let w := Scenario.fresh (Scenario.a_runtime "database" (Some (SBool true)) false) 6000 in
  fst (saveAuthState Scenario.session (refreshed Scenario.record 6000 86400) w)
  = Throw NoDatabaseAdapter
  /\ fst (refreshAuthState Scenario.session Scenario.record w) = Ok None
  /\ authCache (snd (refreshAuthState Scenario.session Scenario.record w)) !! Scenario.session
     = Some (refreshed Scenario.record 6000 86400)
  /\ database (snd (refreshAuthState Scenario.session Scenario.record w)) !! Scenario.session
     = None.
Proof. cbv zeta. repeat apply conj; vm_compute; reflexivity. Qed.

(** C7, at the failing input. The file backend holds an expired record with
    a refresh token. With [autoRefresh] absent from the settings,
    [loadAuthState] returns absent and refreshes nothing; with [autoRefresh]
    set to true it returns the refreshed record. *)
Theorem autoRefresh_absent_is_not_true :
  let absent := at_time 6000 (Scenario.saved (Scenario.a_runtime "encrypted-file" None false)) in
  let enabled :=
    at_time 6000 (Scenario.saved (Scenario.a_runtime "encrypted-file" (Some (SBool true)) false)) in
  stored_record absent Scenario.session = Some Scenario.record
  /\ has_refreshToken Scenario.record = true
  /\ loadAuthState Scenario.session absent = (Ok None, absent)
  /\ fst (loadAuthState Scenario.session enabled)
     = Ok (Some (refreshed Scenario.record 6000 86400)).
Proof. cbv zeta. repeat apply conj; vm_compute; reflexivity. Qed.

(** * The cipher round trip *)

(** ** Bytes *)

Lemma to_N_lt_256 (b : byte) : Byte.to_N b < 256.
Proof. pose proof (Byte.to_N_bounded b). lia. Qed.

Lemma to_N_byte_of_N (n : N) : n < 256 -> Byte.to_N (byte_of_N n) = n.
Proof.
  intros H. unfold byte_of_N. rewrite N.mod_small by assumption.
  destruct (Byte.of_N n) as [b|] eqn:E.
  - now apply Byte.to_of_N.
  - apply Byte.of_N_None_iff in E. lia.
Qed.

Lemma byte_of_N_to_N (b : byte) : byte_of_N (Byte.to_N b) = b.
Proof.
  unfold byte_of_N. rewrite N.mod_small by apply to_N_lt_256.
  now rewrite Byte.of_to_N.
Qed.

Lemma to_N_inj (a b : byte) : Byte.to_N a = Byte.to_N b -> a = b.
Proof. intros H. rewrite <- (byte_of_N_to_N a), <- (byte_of_N_to_N b). now rewrite H. Qed.

Lemma lxor_lt_256 (m n : N) : m < 256 -> n < 256 -> N.lxor m n < 256.
Proof.
  intros Hm Hn.
  destruct (N.eq_dec (N.lxor m n) 0) as [->|Hz]; [lia|].
  apply N.log2_lt_pow2 with (b := 8); [lia|].
  eapply N.le_lt_trans; [apply N.log2_lxor|].
  apply N.max_lub_lt.
  - destruct (N.eq_dec m 0) as [->|]; [reflexivity|]. apply N.log2_lt_pow2; lia.
  - destruct (N.eq_dec n 0) as [->|]; [reflexivity|]. apply N.log2_lt_pow2; lia.
Qed.

Lemma to_N_bxor (a b : byte) :
  Byte.to_N (bxor a b) = N.lxor (Byte.to_N a) (Byte.to_N b).
Proof. apply to_N_byte_of_N, lxor_lt_256; apply to_N_lt_256. Qed.

Lemma bxor_comm (a b : byte) : bxor a b = bxor b a.
Proof. apply to_N_inj. rewrite !to_N_bxor. apply N.lxor_comm. Qed.

Lemma bxor_assoc (a b c : byte) : bxor (bxor a b) c = bxor a (bxor b c).
Proof. apply to_N_inj. rewrite !to_N_bxor. apply N.lxor_assoc. Qed.

Lemma bxor_cancel_r (a b : byte) : bxor (bxor a b) b = a.
Proof.
  apply to_N_inj. rewrite !to_N_bxor, N.lxor_assoc, N.lxor_nilpotent. apply N.lxor_0_r.
Qed.

Lemma bxor_x00_r (a : byte) : bxor a x00 = a.
Proof. apply to_N_inj. rewrite to_N_bxor. apply N.lxor_0_r. Qed.

(** Every byte is in [all_bytes], so a check over [all_bytes] is a proof for
    all bytes. *)
Lemma all_bytes_complete (b : byte) : In b all_bytes.
Proof.
  replace b with (nth (N.to_nat (Byte.to_N b)) all_bytes x00)
    by (destruct b; reflexivity).
  apply nth_In. pose proof (to_N_lt_256 b).
  change (length all_bytes) with 256%nat. lia.
Qed.

Lemma for_all_bytes (P : byte -> bool) :
  forallb P all_bytes = true -> forall b, P b = true.
Proof. intros H b. eapply forallb_forall in H; [eassumption | apply all_bytes_complete]. Qed.

Lemma for_all_byte_pairs (P : byte -> byte -> bool) :
  forallb (fun a => forallb (P a) all_bytes) all_bytes = true ->
  forall a b, P a b = true.
Proof.
  intros H a b. apply (for_all_bytes (P a)). revert a. now apply for_all_bytes.
Qed.

Lemma byte_eqb_eq (a b : byte) : Byte.eqb a b = true -> a = b.
Proof. apply Byte.byte_dec_bl. Qed.

(** ** AES: every step of the cipher is undone by its inverse *)

Lemma inv_sbox_sbox (b : byte) : inv_sbox (sbox b) = b.
Proof. destruct b; vm_compute; reflexivity. Qed.

Lemma InvSubBytes_SubBytes (s : block) : InvSubBytes (SubBytes s) = s.
Proof.
  destruct s as [[] [] [] []].
  unfold InvSubBytes, SubBytes, block_map, word_map. simpl.
  now rewrite !inv_sbox_sbox.
Qed.

Lemma InvShiftRows_ShiftRows (s : block) : InvShiftRows (ShiftRows s) = s.
Proof. destruct s as [[] [] [] []]. reflexivity. Qed.

Lemma AddRoundKey_twice (k s : block) : AddRoundKey k (AddRoundKey k s) = s.
Proof.
  destruct s as [[] [] [] []], k as [[] [] [] []].
  unfold AddRoundKey, block_xor, word_xor. simpl. now rewrite !bxor_cancel_r.
Qed.

Lemma block_xor_twice (s k : block) : block_xor (block_xor s k) k = s.
Proof. apply AddRoundKey_twice. Qed.

(** The multiplications by a constant are linear. *)
Lemma linear_check (f : byte -> byte) :
  forallb (fun a => forallb (fun b => Byte.eqb (f (bxor a b)) (bxor (f a) (f b))) all_bytes)
    all_bytes = true ->
  forall a b, f (bxor a b) = bxor (f a) (f b).
Proof.
  intros H a b. apply byte_eqb_eq.
  apply (for_all_byte_pairs (fun a b => Byte.eqb (f (bxor a b)) (bxor (f a) (f b))) H).
Qed.

Lemma mul9_linear a b : mul9 (bxor a b) = bxor (mul9 a) (mul9 b).
Proof. apply linear_check. vm_compute. reflexivity. Qed.

Lemma mul11_linear a b : mul11 (bxor a b) = bxor (mul11 a) (mul11 b).
Proof. apply linear_check. vm_compute. reflexivity. Qed.

Lemma mul13_linear a b : mul13 (bxor a b) = bxor (mul13 a) (mul13 b).
Proof. apply linear_check. vm_compute. reflexivity. Qed.

Lemma mul14_linear a b : mul14 (bxor a b) = bxor (mul14 a) (mul14 b).
Proof. apply linear_check. vm_compute. reflexivity. Qed.

Lemma linear_xor4 (f : byte -> byte) :
  (forall a b, f (bxor a b) = bxor (f a) (f b)) ->
  forall a b c d, f (xor4 a b c d) = xor4 (f a) (f b) (f c) (f d).
Proof. intros H a b c d. unfold xor4. now rewrite !H. Qed.

(** Sixteen bytes summed by rows or by columns. *)
Lemma xor4_transpose p0 p1 p2 p3 q0 q1 q2 q3 r0 r1 r2 r3 s0 s1 s2 s3 :
  xor4 (xor4 p0 p1 p2 p3) (xor4 q0 q1 q2 q3) (xor4 r0 r1 r2 r3) (xor4 s0 s1 s2 s3)
  = xor4 (xor4 p0 q0 r0 s0) (xor4 p1 q1 r1 s1) (xor4 p2 q2 r2 s2) (xor4 p3 q3 r3 s3).
Proof.
  unfold xor4. apply to_N_inj. rewrite !to_N_bxor.
  apply N.bits_inj. intros n. rewrite !N.lxor_spec.
  repeat match goal with
         | |- context [N.testbit (Byte.to_N ?x) n] =>
             generalize (N.testbit (Byte.to_N x) n); clear x; intro
         end.
  btauto.
Qed.

Lemma xor4_only_first a : xor4 a x00 x00 x00 = a.
Proof. unfold xor4. now rewrite !bxor_x00_r. Qed.

Lemma xor4_only_second a : xor4 x00 a x00 x00 = a.
Proof. destruct a; reflexivity. Qed.

Lemma xor4_only_third a : xor4 x00 x00 a x00 = a.
Proof. destruct a; reflexivity. Qed.

Lemma xor4_only_fourth a : xor4 x00 x00 x00 a = a.
Proof. destruct a; reflexivity. Qed.

Ltac one_variable x := clear; destruct x; vm_compute; reflexivity.

Lemma inv_mix_column_mix_column (w : word) : inv_mix_column (mix_column w) = w.
Proof.
  destruct w as [a b c d]. unfold mix_column, inv_mix_column.
  rewrite !(linear_xor4 mul9 mul9_linear), !(linear_xor4 mul11 mul11_linear),
    !(linear_xor4 mul13 mul13_linear), !(linear_xor4 mul14 mul14_linear).
  f_equal.
  - etransitivity; [apply xor4_transpose|].
    match goal with |- xor4 ?t1 ?t2 ?t3 ?t4 = _ =>
      replace t1 with a by one_variable a; replace t2 with x00 by one_variable b;
      replace t3 with x00 by one_variable c; replace t4 with x00 by one_variable d end.
    apply xor4_only_first.
  - etransitivity; [apply xor4_transpose|].
    match goal with |- xor4 ?t1 ?t2 ?t3 ?t4 = _ =>
      replace t1 with x00 by one_variable a; replace t2 with b by one_variable b;
      replace t3 with x00 by one_variable c; replace t4 with x00 by one_variable d end.
    apply xor4_only_second.
  - etransitivity; [apply xor4_transpose|].
    match goal with |- xor4 ?t1 ?t2 ?t3 ?t4 = _ =>
      replace t1 with x00 by one_variable a; replace t2 with x00 by one_variable b;
      replace t3 with c by one_variable c; replace t4 with x00 by one_variable d end.
    apply xor4_only_third.
  - etransitivity; [apply xor4_transpose|].
    match goal with |- xor4 ?t1 ?t2 ?t3 ?t4 = _ =>
      replace t1 with x00 by one_variable a; replace t2 with x00 by one_variable b;
      replace t3 with x00 by one_variable c; replace t4 with d by one_variable d end.
    apply xor4_only_fourth.
Qed.

Lemma InvMixColumns_MixColumns (s : block) : InvMixColumns (MixColumns s) = s.
Proof.
  destruct s as [a b c d]. unfold InvMixColumns, MixColumns, block_map. simpl.
  now rewrite !inv_mix_column_mix_column.
Qed.

Lemma inv_cipher_rounds_cipher_rounds (rks : list block) (s : block) :
  inv_cipher_rounds rks (cipher_rounds rks s) = s.
Proof.
  revert s. induction rks as [|k rest IH]; intros s; [reflexivity|].
  destruct rest as [|k' rest].
  - simpl. now rewrite AddRoundKey_twice, InvShiftRows_ShiftRows, InvSubBytes_SubBytes.
  - change (cipher_rounds (k :: k' :: rest) s)
      with (cipher_rounds (k' :: rest) (AddRoundKey k (MixColumns (ShiftRows (SubBytes s))))).
    change (inv_cipher_rounds (k :: k' :: rest) ?x)
      with (InvSubBytes (InvShiftRows (InvMixColumns
              (AddRoundKey k (inv_cipher_rounds (k' :: rest) x))))).
    now rewrite IH, AddRoundKey_twice, InvMixColumns_MixColumns, InvShiftRows_ShiftRows,
      InvSubBytes_SubBytes.
Qed.

(** AES decryption undoes AES encryption, whatever the round keys. *)
Lemma InvCipher_Cipher (rks : list block) (s : block) : InvCipher rks (Cipher rks s) = s.
Proof.
  destruct rks as [|k rest]; [reflexivity|]. unfold InvCipher, Cipher.
  now rewrite inv_cipher_rounds_cipher_rounds, AddRoundKey_twice.
Qed.

(** ** Hexadecimal *)

Lemma hex_encode_cons b bs : hex_encode (b :: bs) = hex_encode [b] ++ hex_encode bs.
Proof. reflexivity. Qed.

Lemma hex_decode_encode_byte (b : byte) (rest : list N) :
  hex_decode (hex_encode [b] ++ rest) = b :: hex_decode rest.
Proof. destruct b; reflexivity. Qed.

(** Decoding undoes encoding. *)
Lemma hex_decode_encode (bs : list byte) : hex_decode (hex_encode bs) = bs.
Proof.
  induction bs as [|b bs IH]; [reflexivity|].
  rewrite hex_encode_cons, hex_decode_encode_byte. now rewrite IH.
Qed.

Lemma hex_encode_byte_no_colon (b : byte) : Forall (fun c => c <> colon) (hex_encode [b]).
Proof. destruct b; repeat constructor; discriminate. Qed.

Lemma hex_encode_no_colon (bs : list byte) : Forall (fun c => c <> colon) (hex_encode bs).
Proof.
  induction bs as [|b bs IH]; [constructor|].
  rewrite hex_encode_cons. apply Forall_app. split; [apply hex_encode_byte_no_colon | exact IH].
Qed.

Lemma length_hex_encode (bs : list byte) : length (hex_encode bs) = (2 * length bs)%nat.
Proof. induction bs as [|b bs IH]; simpl in *; lia. Qed.

Lemma hex_encode_even (bs : list byte) : Nat.odd (length (hex_encode bs)) = false.
Proof.
  rewrite length_hex_encode, <- Nat.negb_even, Nat.even_mul. reflexivity.
Qed.

(** ** [split] *)

Lemma split_no_separator sep (a : list N) :
  Forall (fun c => c <> sep) a -> split sep a = [a].
Proof.
  induction 1 as [|c a Hc _ IH]; [reflexivity|].
  simpl. rewrite IH. apply N.eqb_neq in Hc. now rewrite Hc.
Qed.

Lemma split_at_separator sep (a b : list N) :
  Forall (fun c => c <> sep) a -> split sep (a ++ sep :: b) = a :: split sep b.
Proof.
  induction 1 as [|c a Hc _ IH]; simpl.
  - now rewrite N.eqb_refl.
  - rewrite IH. apply N.eqb_neq in Hc. now rewrite Hc.
Qed.

(** ** Blocks *)

Lemma blocks_of_bytes_flat (bs : list block) :
  blocks_of_bytes (flat_map bytes_of_block bs) = Some bs.
Proof.
  induction bs as [|b bs IH]; [reflexivity|].
  destruct b as [[] [] [] []].
  change (flat_map bytes_of_block (?b :: bs)) with (bytes_of_block b ++ flat_map bytes_of_block bs).
  cbn [bytes_of_block bytes_of_word c0 c1 c2 c3 w0 w1 w2 w3 app blocks_of_bytes].
  now rewrite IH.
Qed.

Lemma blocks_of_bytes_multiple (n : nat) (l : list byte) :
  length l = (16 * n)%nat ->
  exists bs, blocks_of_bytes l = Some bs /\ flat_map bytes_of_block bs = l /\ length bs = n.
Proof.
  revert l. induction n as [|n IH]; intros l Hl.
  - destruct l; [|discriminate]. exists []. auto.
  - do 16 (destruct l as [|? l]; [simpl in Hl; lia|]).
    destruct (IH l) as (bs & Hbs & Hflat & Hlen); [simpl in Hl; lia|].
    eexists (_ :: bs). cbn [blocks_of_bytes]. rewrite Hbs. split; [reflexivity|].
    split; [|simpl; now rewrite Hlen].
    change (flat_map bytes_of_block (?b :: bs)) with (bytes_of_block b ++ flat_map bytes_of_block bs).
    rewrite Hflat. reflexivity.
Qed.

(** ** PKCS#7 *)

Lemma pkcs7_pad_length (data : list byte) :
  length (pkcs7_pad data) = (16 * S (length data / 16))%nat.
Proof.
  unfold pkcs7_pad. rewrite length_app, repeat_length.
  pose proof (Nat.div_mod_eq (length data) 16).
  pose proof (Nat.mod_upper_bound (length data) 16). lia.
Qed.

Lemma pkcs7_unpad_pad (data : list byte) : pkcs7_unpad (pkcs7_pad data) = Some data.
Proof.
  unfold pkcs7_unpad, pkcs7_pad.
  set (n := (16 - length data mod 16)%nat).
  assert (Hn : (1 <= n <= 16)%nat).
  { pose proof (Nat.mod_upper_bound (length data) 16). lia. }
  set (b := byte_of_N (N.of_nat n)).
  assert (Hb : N.to_nat (Byte.to_N b) = n).
  { unfold b. rewrite to_N_byte_of_N by lia. lia. }
  rewrite rev_app_distr, rev_repeat.
  destruct n as [|m] eqn:En; [lia|].
  cbn [repeat app]. rewrite Hb.
  rewrite length_app, length_cons, repeat_length.
  replace (1 <=? S m)%nat with true by (symmetry; apply Nat.leb_le; lia).
  replace (S m <=? 16)%nat with true by (symmetry; apply Nat.leb_le; lia).
  replace (S m <=? length data + S m)%nat with true by (symmetry; apply Nat.leb_le; lia).
  cbn [andb].
  assert (Hall : forallb (Byte.eqb b) (firstn (S m) (b :: repeat b m ++ rev data)) = true).
  { change (b :: repeat b m ++ rev data) with (repeat b (S m) ++ rev data).
    rewrite firstn_app, repeat_length, Nat.sub_diag, firstn_O, app_nil_r.
    rewrite firstn_all2 by (rewrite repeat_length; lia).
    apply forallb_forall. intros x Hx. apply repeat_spec in Hx. subst x.
    apply Byte.byte_dec_lb. reflexivity. }
  rewrite Hall.
  replace (length data + S m - S m)%nat with (length data) by lia.
  rewrite firstn_app, Nat.sub_diag, firstn_O, app_nil_r, firstn_all. reflexivity.
Qed.

(** ** CBC *)

Lemma cbc_decrypt_encrypt (rks : list block) (iv : block) (ps : list block) :
  cbc_decrypt rks iv (cbc_encrypt rks iv ps) = ps.
Proof.
  revert iv. induction ps as [|p ps IH]; intros iv; [reflexivity|].
  simpl. now rewrite InvCipher_Cipher, block_xor_twice, IH.
Qed.

Lemma length_cbc_encrypt rks iv ps : length (cbc_encrypt rks iv ps) = length ps.
Proof. revert iv. induction ps as [|p ps IH]; intros iv; simpl; [|rewrite IH]; reflexivity. Qed.

(** [final()] returns what [update()] was given. *)
Lemma decipher_cipher_update_final (ctx : list block * block) (data : list byte) :
  decipher_update_final ctx (cipher_update_final ctx data) = Ok data.
Proof.
  unfold decipher_update_final, cipher_update_final.
  destruct (blocks_of_bytes_multiple _ _ (pkcs7_pad_length data)) as (ps & Hps & Hflat & Hlen).
  rewrite Hps, blocks_of_bytes_flat.
  destruct (cbc_encrypt (fst ctx) (snd ctx) ps) as [|c cs] eqn:E.
  - apply (f_equal (@length _)) in E. rewrite length_cbc_encrypt, Hlen in E. discriminate.
  - rewrite <- E, cbc_decrypt_encrypt, Hflat, pkcs7_unpad_pad. reflexivity.
Qed.

(** ** UTF-8 *)

Ltac Zify.zify_post_hook ::= Z.to_euclidean_division_equations.

(** Settles the comparisons of the goal that linear arithmetic decides. *)
Ltac settle_comparisons :=
  repeat first
    [ match goal with
      | |- context [?a <=? ?b] =>
          first [ rewrite (proj2 (N.leb_le a b)) by lia
                | rewrite (proj2 (N.leb_gt a b)) by lia ]
      end
    | match goal with
      | |- context [?a <? ?b] =>
          first [ rewrite (proj2 (N.ltb_lt a b)) by lia
                | rewrite (proj2 (N.ltb_ge a b)) by lia ]
      end
    | match goal with
      | |- context [?a =? ?b] =>
          first [ rewrite (proj2 (N.eqb_eq a b)) by lia
                | rewrite (proj2 (N.eqb_neq a b)) by lia ]
      end ].

Lemma decode_fresh_step (b : byte) (rest : list byte) :
  utf8_decode_from Fresh (b :: rest)
  = fst (lead_byte (Byte.to_N b)) ++ utf8_decode_from (snd (lead_byte (Byte.to_N b))) rest.
Proof. cbn [utf8_decode_from]. now destruct (lead_byte (Byte.to_N b)). Qed.

Lemma decode_continuation (b : byte) (rest : list byte) cp k lower upper :
  lower <= Byte.to_N b -> Byte.to_N b <= upper ->
  utf8_decode_from (Pending cp (S (S k)) lower upper) (b :: rest)
  = utf8_decode_from (Pending (cp * 64 + Byte.to_N b mod 64) (S k) 0x80 0xBF) rest.
Proof.
  intros Hl Hu. cbn [utf8_decode_from].
  apply N.leb_le in Hl, Hu. now rewrite Hl, Hu.
Qed.

Lemma decode_last_continuation (b : byte) (rest : list byte) cp lower upper :
  lower <= Byte.to_N b -> Byte.to_N b <= upper ->
  utf8_decode_from (Pending cp 1 lower upper) (b :: rest)
  = utf16_units (cp * 64 + Byte.to_N b mod 64) ++ utf8_decode_from Fresh rest.
Proof.
  intros Hl Hu. cbn [utf8_decode_from].
  apply N.leb_le in Hl, Hu. now rewrite Hl, Hu.
Qed.

Lemma lead_byte_one n : n <= 0x7F -> lead_byte n = ([n], Fresh).
Proof. intros H. unfold lead_byte. now settle_comparisons. Qed.

Lemma lead_byte_two n :
  0xC2 <= n -> n <= 0xDF -> lead_byte n = ([], Pending (n mod 32) 1 0x80 0xBF).
Proof. intros H1 H2. unfold lead_byte. now settle_comparisons. Qed.

Lemma lead_byte_three n :
  0xE0 <= n -> n <= 0xEF ->
  lead_byte n = ([], Pending (n mod 16) 2 (if n =? 0xE0 then 0xA0 else 0x80)
                                          (if n =? 0xED then 0x9F else 0xBF)).
Proof. intros H1 H2. unfold lead_byte. settle_comparisons. reflexivity. Qed.

Lemma lead_byte_four n :
  0xF0 <= n -> n <= 0xF4 ->
  lead_byte n = ([], Pending (n mod 8) 3 (if n =? 0xF0 then 0x90 else 0x80)
                                         (if n =? 0xF4 then 0x8F else 0xBF)).
Proof. intros H1 H2. unfold lead_byte. settle_comparisons. reflexivity. Qed.

Lemma decode_one_byte cp rest :
  cp < 0x80 ->
  utf8_decode_from Fresh (encode_code_point cp ++ rest) = cp :: utf8_decode_from Fresh rest.
Proof.
  intros H. unfold encode_code_point. settle_comparisons. cbn [app].
  rewrite decode_fresh_step. rewrite to_N_byte_of_N by lia. rewrite lead_byte_one by lia. reflexivity.
Qed.

Lemma decode_two_bytes cp rest :
  0x80 <= cp -> cp < 0x800 ->
  utf8_decode_from Fresh (encode_code_point cp ++ rest) = cp :: utf8_decode_from Fresh rest.
Proof.
  intros H1 H2. unfold encode_code_point. settle_comparisons. cbn [app].
  rewrite decode_fresh_step. rewrite to_N_byte_of_N by lia. rewrite lead_byte_two by lia. cbn [fst snd app].
  rewrite decode_last_continuation by (rewrite to_N_byte_of_N; lia).
  rewrite to_N_byte_of_N by lia.
  replace ((0xC0 + cp / 64) mod 32 * 64 + (0x80 + cp mod 64) mod 64) with cp by lia.
  unfold utf16_units. now settle_comparisons.
Qed.

Lemma decode_three_bytes cp rest :
  0x800 <= cp -> cp < 0x10000 -> ~ (0xD800 <= cp <= 0xDFFF) ->
  utf8_decode_from Fresh (encode_code_point cp ++ rest) = cp :: utf8_decode_from Fresh rest.
Proof.
  intros H1 H2 H3. unfold encode_code_point. settle_comparisons. cbn [app].
  rewrite decode_fresh_step. rewrite to_N_byte_of_N by lia. rewrite lead_byte_three by lia. cbn [fst snd app].
  rewrite decode_continuation.
  2,3: rewrite to_N_byte_of_N;
    repeat match goal with |- context [?a =? ?b] => destruct (N.eqb_spec a b) end; lia.
  rewrite decode_last_continuation by (rewrite to_N_byte_of_N; lia).
  rewrite !to_N_byte_of_N by lia.
  replace (((0xE0 + cp / 4096) mod 16 * 64 + (0x80 + (cp / 64) mod 64) mod 64) * 64
           + (0x80 + cp mod 64) mod 64) with cp by lia.
  unfold utf16_units. now settle_comparisons.
Qed.

Lemma decode_four_bytes cp rest :
  0x10000 <= cp -> cp < 0x110000 ->
  utf8_decode_from Fresh (encode_code_point cp ++ rest)
  = utf16_units cp ++ utf8_decode_from Fresh rest.
Proof.
  intros H1 H2. unfold encode_code_point. settle_comparisons. cbn [app].
  rewrite decode_fresh_step. rewrite to_N_byte_of_N by lia. rewrite lead_byte_four by lia. cbn [fst snd app].
  rewrite decode_continuation.
  2,3: rewrite to_N_byte_of_N;
    repeat match goal with |- context [?a =? ?b] => destruct (N.eqb_spec a b) end; lia.
  rewrite decode_continuation by (rewrite to_N_byte_of_N; lia).
  rewrite decode_last_continuation by (rewrite to_N_byte_of_N; lia).
  rewrite !to_N_byte_of_N by lia.
  replace ((((0xF0 + cp / 262144) mod 8 * 64 + (0x80 + (cp / 4096) mod 64) mod 64) * 64
            + (0x80 + (cp / 64) mod 64) mod 64) * 64 + (0x80 + cp mod 64) mod 64)
    with cp by lia.
  reflexivity.
Qed.

Lemma surrogate_pair_code_point c d :
  is_high_surrogate c = true -> is_low_surrogate d = true ->
  let cp := 0x10000 + (c - 0xD800) * 1024 + (d - 0xDC00) in
  0x10000 <= cp /\ cp < 0x110000 /\ utf16_units cp = [c; d].
Proof.
  intros Hc Hd cp. unfold is_high_surrogate, is_low_surrogate in Hc, Hd.
  apply andb_true_iff in Hc as [Hc1 Hc2]. apply andb_true_iff in Hd as [Hd1 Hd2].
  apply N.leb_le in Hc1, Hc2, Hd1, Hd2.
  assert (H1 : 0x10000 <= cp) by (unfold cp; lia).
  assert (H2 : cp < 0x110000) by (unfold cp; lia).
  repeat split; try assumption.
  unfold utf16_units. settle_comparisons.
  f_equal; [|f_equal]; unfold cp; lia.
Qed.

Lemma decode_unit c rest :
  is_high_surrogate c = false -> is_low_surrogate c = false -> c < 0x10000 ->
  utf8_decode_from Fresh (encode_code_point c ++ rest) = c :: utf8_decode_from Fresh rest.
Proof.
  unfold is_high_surrogate, is_low_surrogate. intros Hh Hl Hc.
  assert (Hs : ~ (0xD800 <= c <= 0xDFFF)).
  { intros [H1 H2].
    destruct (N.leb_spec 0xD800 c), (N.leb_spec c 0xDBFF), (N.leb_spec 0xDC00 c),
      (N.leb_spec c 0xDFFF); simpl in *; try discriminate; lia. }
  destruct (N.lt_ge_cases c 0x80); [now apply decode_one_byte|].
  destruct (N.lt_ge_cases c 0x800); [now apply decode_two_bytes|].
  now apply decode_three_bytes.
Qed.

(** Decoding undoes encoding on well-formed strings. *)
Lemma utf8_decode_encode_app (s : list N) (rest : list byte) :
  isWellFormed s = true ->
  utf8_decode_from Fresh (utf8_encode s ++ rest) = s ++ utf8_decode_from Fresh rest.
Proof.
  remember (length s) as n eqn:Hn. assert (Hle : (length s <= n)%nat) by lia. clear Hn.
  revert s Hle. induction n as [|n IH]; intros s Hle Hwf.
  - destruct s; [reflexivity | simpl in Hle; lia].
  - destruct s as [|c s]; [reflexivity|].
    cbn [isWellFormed utf8_encode] in *.
    destruct (is_high_surrogate c) eqn:Hh.
    + destruct s as [|d s]; [discriminate|].
      apply andb_true_iff in Hwf as [Hd Hwf]. rewrite Hd.
      destruct (surrogate_pair_code_point c d Hh Hd) as (H1 & H2 & H3).
      rewrite <- app_assoc, decode_four_bytes, H3 by assumption.
      rewrite IH by (assumption || (simpl in Hle; lia)). reflexivity.
    + destruct (is_low_surrogate c) eqn:Hl; [discriminate|].
      apply andb_true_iff in Hwf as [Hc Hwf]. apply N.ltb_lt in Hc.
      rewrite <- app_assoc, decode_unit by assumption.
      rewrite IH by (assumption || (simpl in Hle; lia)). reflexivity.
Qed.

Lemma utf8_decode_encode (s : list N) :
  isWellFormed s = true -> utf8_decode (utf8_encode s) = s.
Proof.
  intros H. unfold utf8_decode.
  rewrite <- (app_nil_r (utf8_encode s)), utf8_decode_encode_app by assumption.
  apply app_nil_r.
Qed.

(** ** The envelope *)

Lemma split_envelope (iv ct : list byte) :
  split colon (hex_encode iv ++ colon :: hex_encode ct) = [hex_encode iv; hex_encode ct].
Proof.
  rewrite split_at_separator by apply hex_encode_no_colon.
  now rewrite split_no_separator by apply hex_encode_no_colon.
Qed.

(** C2, as the code has it. For every initialization vector, every
    plaintext that is a well-formed string (no lone surrogate; the empty
    string too) and every key whose normalization takes 32 bytes,
    [encryptData] returns an envelope and [decryptData] of that envelope
    under the same key returns the plaintext. *)
Theorem decrypt_encrypt_round_trip (iv : block) (P K : list N) :
  isWellFormed P = true ->
  length (normalizedKey K) = 32%nat ->
  exists envelope,
    encryptData iv P K = Ok envelope /\ decryptData envelope K = Ok P.
Proof.
  intros Hwf Hkey. unfold encryptData, decryptData, createCipheriv.
  rewrite blocks_of_bytes_block, Hkey. cbn [Nat.eqb].
  change (32 =? 32)%nat with true. cbv iota.
  eexists. split; [reflexivity|].
  rewrite split_envelope. cbn [nth nth_error].
  rewrite !hex_decode_encode, blocks_of_bytes_block.
  rewrite hex_encode_even, decipher_cipher_update_final.
  now rewrite utf8_decode_encode.
Qed.

Lemma decrypt_encrypt_round_trip_witness :
  exists envelope,
    encryptData Scenario.zero_block Scenario.not_json_text (js "default-key") = Ok envelope
    /\ decryptData envelope (js "default-key") = Ok Scenario.not_json_text.
Proof.
  apply (decrypt_encrypt_round_trip Scenario.zero_block Scenario.not_json_text
           (js "default-key")); vm_compute; reflexivity.
Defined.

(** C2, counterexample. The one-unit plaintext U+D800, a lone surrogate, is
    encrypted as the bytes of U+FFFD: [decryptData] returns U+FFFD, not the
    plaintext. *)
Lemma lone_surrogate_is_not_returned :
  encryptData Scenario.zero_block [0xD800] (js "default-key") = Ok Scenario.lone_envelope
  /\ decryptData Scenario.lone_envelope (js "default-key") = Ok [0xFFFD].
Proof. split; vm_compute; reflexivity. Qed.

(** ** Reading what [JSON.stringify] writes *)

Lemma steps_None (s : list N) : steps None s = None.
Proof. destruct s; reflexivity. Qed.

Lemma steps_app (st : option (lexer_state * parser_state)) (a b : list N) :
  steps st (a ++ b) = steps (steps st a) b.
Proof.
  revert st. induction a as [|c a IH]; intros st; [reflexivity|].
  destruct st as [st|]; [apply IH | now rewrite !steps_None].
Qed.

Lemma steps_cons st c (s : list N) : steps (Some st) (c :: s) = steps (step st c) s.
Proof. reflexivity. Qed.

Lemma hex_value_hex_digit d : d < 16 -> hex_value (hex_digit d) = Some d.
Proof.
  intros H. unfold hex_digit, hex_value.
  destruct (N.ltb_spec d 10); settle_comparisons; cbn [andb]; f_equal; lia.
Qed.

Lemma hex4_value c :
  16 * (16 * (16 * (16 * 0 + c / 4096) + (c / 256) mod 16) + (c / 16) mod 16) + c mod 16 = c.
Proof.
  replace (c / 4096) with (c / 16 / 16 / 16) by (rewrite !N.Div0.div_div; reflexivity).
  replace (c / 256) with (c / 16 / 16) by (rewrite !N.Div0.div_div; reflexivity).
  pose proof (N.div_mod c 16). pose proof (N.div_mod (c / 16) 16).
  pose proof (N.div_mod (c / 16 / 16) 16).
  generalize dependent (c / 16 / 16 / 16). generalize dependent (c / 16 / 16 mod 16).
  generalize dependent (c / 16 / 16). generalize dependent (c / 16 mod 16).
  generalize dependent (c / 16). generalize dependent (c mod 16).
  intros. lia.
Qed.

(** A \u escape is read as its unit. *)
Lemma steps_unicode_escape ps acc c (rest : list N) :
  c < 0x10000 ->
  steps (Some (LString acc, ps)) (unicode_escape c ++ rest)
  = steps (Some (LString (c :: acc), ps)) rest.
Proof.
  intros H. unfold unicode_escape, hex4. cbn [app].
  rewrite steps_cons. cbn [step]. change (backslash =? quote_unit) with false.
  change (backslash =? backslash) with true. cbv iota.
  rewrite steps_cons. cbn [step].
  change (117 =? quote_unit) with false. change (117 =? backslash) with false.
  cbn [N.eqb Pos.eqb]. cbv iota.
  rewrite steps_cons. cbn [step]. rewrite hex_value_hex_digit by lia.
  rewrite steps_cons. cbn [step]. rewrite hex_value_hex_digit by lia.
  rewrite steps_cons. cbn [step]. rewrite hex_value_hex_digit by lia.
  rewrite steps_cons. cbn [step]. rewrite hex_value_hex_digit by lia.
  now rewrite hex4_value.
Qed.

(** An escaped unit is read as the unit. *)
Lemma steps_escape_unit ps acc c (rest : list N) :
  is_high_surrogate c = false -> is_low_surrogate c = false ->
  steps (Some (LString acc, ps)) (escape_unit c ++ rest)
  = steps (Some (LString (c :: acc), ps)) rest.
Proof.
  intros _ _. unfold escape_unit.
  destruct (N.eqb_spec c 8) as [->|]; [reflexivity|].
  destruct (N.eqb_spec c 9) as [->|]; [reflexivity|].
  destruct (N.eqb_spec c 10) as [->|]; [reflexivity|].
  destruct (N.eqb_spec c 12) as [->|]; [reflexivity|].
  destruct (N.eqb_spec c 13) as [->|]; [reflexivity|].
  destruct (N.eqb_spec c quote_unit) as [->|Hq]; [reflexivity|].
  destruct (N.eqb_spec c backslash) as [->|Hb]; [reflexivity|].
  destruct (N.ltb_spec c 32) as [Hc|Hc].
  - apply steps_unicode_escape. lia.
  - cbn [app]. rewrite steps_cons. cbn [step].
    apply N.eqb_neq in Hq, Hb. rewrite Hq, Hb.
    now rewrite (proj2 (N.ltb_ge c 32)) by assumption.
Qed.

Lemma surrogate_is_raw c :
  is_high_surrogate c = true \/ is_low_surrogate c = true ->
  (c =? quote_unit) = false /\ (c =? backslash) = false /\ (c <? 32) = false /\ c < 0x10000.
Proof.
  unfold is_high_surrogate, is_low_surrogate, quote_unit, backslash.
  intros [H|H]; apply andb_true_iff in H as [H1 H2]; apply N.leb_le in H1, H2;
    repeat split; try (apply N.eqb_neq; lia); try (apply N.ltb_ge; lia); lia.
Qed.

Lemma steps_raw_surrogate ps acc c (rest : list N) :
  is_high_surrogate c = true \/ is_low_surrogate c = true ->
  steps (Some (LString acc, ps)) (c :: rest) = steps (Some (LString (c :: acc), ps)) rest.
Proof.
  intros H. destruct (surrogate_is_raw c H) as (Hq & Hb & Hc & _).
  rewrite steps_cons. cbn [step]. now rewrite Hq, Hb, Hc.
Qed.

(** The body of a quoted string is read as the string. *)
Lemma steps_escape_units ps (s : list N) :
  forall acc rest,
    steps (Some (LString acc, ps)) (escape_units s ++ rest)
    = steps (Some (LString (rev s ++ acc), ps)) rest.
Proof.
  remember (length s) as n eqn:Hn. assert (Hle : (length s <= n)%nat) by lia. clear Hn.
  revert s Hle. induction n as [|n IH]; intros s Hle acc rest.
  - destruct s; [reflexivity | simpl in Hle; lia].
  - destruct s as [|c s]; [reflexivity|].
    cbn [escape_units]. cbn [rev]. rewrite <- !app_assoc. cbn [app].
    destruct (is_high_surrogate c) eqn:Hh.
    + destruct s as [|d s].
      * rewrite steps_unicode_escape; [reflexivity|].
        apply (surrogate_is_raw c). now left.
      * destruct (is_low_surrogate d) eqn:Hd.
        -- cbn [app rev]. rewrite <- !app_assoc. cbn [app].
           rewrite steps_raw_surrogate by now left.
           rewrite steps_raw_surrogate by now right.
           apply IH. simpl in Hle. lia.
        -- rewrite <- app_assoc, steps_unicode_escape by (apply (surrogate_is_raw c); now left).
           rewrite IH by (simpl in Hle |- *; lia). reflexivity.
    + destruct (is_low_surrogate c) eqn:Hl.
      * rewrite <- app_assoc, steps_unicode_escape by (apply (surrogate_is_raw c); now right).
        rewrite IH by (simpl in Hle; lia). reflexivity.
      * rewrite <- app_assoc, steps_escape_unit by assumption.
        rewrite IH by (simpl in Hle; lia). reflexivity.
Qed.

(** A quoted string is read as one string token. *)
Lemma steps_quote ps (s rest : list N) :
  steps (Some (LStart, ps)) (quote s ++ rest) = steps (emit ps (TScalar (JStr s))) rest.
Proof.
  unfold quote. cbn [app]. rewrite steps_cons.
  change (step (LStart, ps) quote_unit) with (Some (LString [], ps)).
  rewrite <- app_assoc, steps_escape_units. cbn [app]. rewrite steps_cons.
  cbn [step]. rewrite N.eqb_refl, app_nil_r, rev_involutive. reflexivity.
Qed.

Lemma step_first_digit negative ps n :
  n < 10 ->
  step (numeral_start negative ps) (48 + n)
  = Some (LNumeral (if n =? 0 then NZero else NInt) negative n, ps).
Proof.
  intros H. destruct negative; cbn [numeral_start step step_numeral].
  - unfold is_digit. destruct (N.eqb_spec n 0) as [->|Hn]; [reflexivity|].
    settle_comparisons. cbn [andb]. do 3 f_equal. lia.
  - unfold step_start, is_digit, quote_unit.
    destruct (N.eqb_spec n 0) as [->|Hn]; [reflexivity|].
    settle_comparisons. cbn [andb orb]. do 3 f_equal. lia.
Qed.

Lemma step_next_digit negative ps m n :
  n < 10 ->
  step (LNumeral NInt negative m, ps) (48 + n) = Some (LNumeral NInt negative (10 * m + n), ps).
Proof.
  intros H. cbn [step step_numeral]. unfold is_digit. settle_comparisons.
  cbn [andb]. do 4 f_equal. lia.
Qed.

Lemma digits_fuel_S fuel n :
  digits_fuel (S fuel) n
  = if n <? 10 then [48 + n] else digits_fuel fuel (n / 10) ++ [48 + n mod 10].
Proof. reflexivity. Qed.

Lemma steps_digits_fuel negative ps (fuel : nat) :
  forall n, n < 2 ^ N.of_nat (S fuel) ->
  steps (Some (numeral_start negative ps)) (digits_fuel (S fuel) n)
  = Some (LNumeral (if n =? 0 then NZero else NInt) negative n, ps).
Proof.
  induction fuel as [|fuel IH]; intros n Hn; rewrite digits_fuel_S;
    destruct (N.ltb_spec n 10) as [H|H];
    try (rewrite steps_cons, step_first_digit by assumption; reflexivity).
  - change (2 ^ N.of_nat 1) with 2 in Hn. lia.
  - assert (Hpow : 2 ^ N.of_nat (S (S fuel)) = 2 * 2 ^ N.of_nat (S fuel)).
    { rewrite (Nat2N.inj_succ (S fuel)). apply N.pow_succ_r'. }
    rewrite steps_app, IH by lia.
    replace (n / 10 =? 0) with false by (symmetry; apply N.eqb_neq; lia).
    rewrite steps_cons, step_next_digit by lia.
    replace (n =? 0) with false by (symmetry; apply N.eqb_neq; lia).
    cbn [steps]. do 4 f_equal. lia.
Qed.

Lemma steps_digits negative ps n :
  steps (Some (numeral_start negative ps)) (digits n)
  = Some (LNumeral (if n =? 0 then NZero else NInt) negative n, ps).
Proof.
  apply steps_digits_fuel.
  destruct (N.eq_dec n 0) as [->|Hn]; [reflexivity|].
  rewrite Nat2N.inj_succ, N2Nat.id. apply N.log2_spec. lia.
Qed.

(** A number followed by a comma or a closing brace is read as one number
    token, and the unit after it is read between tokens. *)
Lemma steps_number ps z c (rest : list N) :
  safe_integer z = true -> c = 44 \/ c = 125 ->
  steps (Some (LStart, ps)) (number_to_string z ++ c :: rest)
  = steps (match feed ps (TScalar (JNum z)) with
           | Some ps' => step_start ps' c
           | None => None
           end) rest.
Proof.
  intros Hsafe Hc. unfold number_to_string.
  assert (Hread : steps (Some (LStart, ps)) (if (z <? 0)%Z then 45 :: digits (Z.abs_N z)
                                              else digits (Z.abs_N z))
                  = Some (LNumeral (if Z.abs_N z =? 0 then NZero else NInt)
                                   (z <? 0)%Z (Z.abs_N z), ps)).
  { destruct (z <? 0)%Z.
    - rewrite steps_cons. apply (steps_digits true).
    - apply (steps_digits false). }
  rewrite steps_app, Hread, steps_cons. f_equal.
  assert (Hz : (if (z <? 0)%Z then - Z.of_N (Z.abs_N z) else Z.of_N (Z.abs_N z))%Z = z).
  { destruct (Z.ltb_spec z 0); lia. }
  assert (Hd : is_digit c = false) by (destruct Hc; subst c; reflexivity).
  destruct (Z.abs_N z =? 0); cbn [step step_numeral numeral_value]; rewrite Hz, Hsafe, ?Hd;
    destruct Hc; subst c; reflexivity.
Qed.

Lemma step_lbrace ps : step (LStart, ps) 123 = emit ps TLBrace.
Proof. reflexivity. Qed.
Lemma step_rbrace ps : step (LStart, ps) 125 = emit ps TRBrace.
Proof. reflexivity. Qed.
Lemma step_lbracket ps : step (LStart, ps) 91 = emit ps TLBracket.
Proof. reflexivity. Qed.
Lemma step_rbracket ps : step (LStart, ps) 93 = emit ps TRBracket.
Proof. reflexivity. Qed.
Lemma step_colon ps : step (LStart, ps) 58 = emit ps TColon.
Proof. reflexivity. Qed.
Lemma step_comma ps : step (LStart, ps) 44 = emit ps TComma.
Proof. reflexivity. Qed.

(** The elements of an array of strings, after the first, up to the closing
    bracket. *)
Lemma steps_more_strings stack (ss : list (list N)) :
  forall done v (rest : list N),
    steps (Some (LStart, HaveValue v (InArr done :: stack)))
          (flat_map (fun s => 44 :: quote s) ss ++ 93 :: rest)
    = steps (Some (LStart, HaveValue (JArr (rev done ++ v :: map JStr ss)) stack)) rest.
Proof.
  induction ss as [|s ss IH]; intros done v rest.
  - cbn [flat_map app]. rewrite steps_cons, step_rbracket. cbn [emit feed rev map].
    reflexivity.
  - cbn [flat_map]. rewrite <- app_assoc. cbn [app].
    rewrite steps_cons, step_comma. cbn [emit feed].
    rewrite steps_quote. cbn [emit feed feed_value].
    rewrite IH. cbn [rev map]. now rewrite <- app_assoc.
Qed.

Lemma join_comma_cons (x : list N) (xs : list (list N)) :
  join_comma (x :: xs) = x ++ flat_map (fun s => 44 :: s) xs.
Proof.
  revert x. induction xs as [|y ys IH]; intros x.
  - cbn. now rewrite app_nil_r.
  - change (join_comma (x :: y :: ys)) with (x ++ 44 :: join_comma (y :: ys)).
    now rewrite IH.
Qed.

(** An array of strings is read as the array. *)
Lemma steps_string_array stack (ss : list (list N)) (rest : list N) :
  steps (Some (LStart, WantValue stack)) (91 :: join_comma (map quote ss) ++ 93 :: rest)
  = steps (Some (LStart, HaveValue (JArr (map JStr ss)) stack)) rest.
Proof.
  rewrite steps_cons, step_lbracket. cbn [emit feed feed_value].
  destruct ss as [|s ss].
  - cbn [map join_comma app]. rewrite steps_cons, step_rbracket. reflexivity.
  - cbn [map]. rewrite join_comma_cons, <- app_assoc, steps_quote.
    cbn [emit feed feed_value].
    replace (flat_map (fun s0 => 44 :: s0) (map quote ss))
      with (flat_map (fun s0 => 44 :: quote s0) ss)
      by (induction ss as [|? ? IH]; [reflexivity | cbn; now rewrite IH]).
    rewrite steps_more_strings. reflexivity.
Qed.

Lemma strings_of_strings (ss : list (list N)) : strings_of (map JStr ss) = Some ss.
Proof. induction ss as [|s ss IH]; [reflexivity|]. cbn. now rewrite IH. Qed.

Lemma step_start_comma ps : step_start ps 44 = emit ps TComma.
Proof. reflexivity. Qed.

(** Reads the next token of a text in right-nested form. *)
Ltac read_token :=
  first
    [ rewrite steps_quote; cbn [emit feed feed_value]
    | rewrite steps_number by (assumption || (left; reflexivity) || (right; reflexivity));
      cbn [feed feed_value]; rewrite step_start_comma; cbn [emit feed feed_value]
    | rewrite steps_string_array
    | rewrite steps_cons;
      first [ rewrite step_colon | rewrite step_comma | rewrite step_lbrace
            | rewrite step_rbrace ];
      cbn [emit feed feed_value] ].

(** [JSON.parse] reads what [JSON.stringify] wrote, and the value it returns
    is the record. *)
Theorem JSON_parse_stringify (R : AuthState) :
  numbers_safe R = true ->
  exists v, JSON_parse (JSON_stringify R) = Some v /\ as_AuthState v = Some R.
Proof.
  destruct R as [w s t e r p n]. unfold numbers_safe. cbn [timestamp expiresAt].
  intros Hsafe. apply andb_true_iff in Hsafe as [Ht He].
  unfold JSON_parse, JSON_stringify.
  cbn [walletPublicKey signature timestamp expiresAt refreshToken permissions network].
  destruct r as [r|]; unfold member; cbn [app join_comma];
    repeat (rewrite <- app_assoc; cbn [app]).
  - repeat read_token. cbn [steps finish rev app].
    eexists. split; [reflexivity|].
    unfold as_AuthState. rewrite strings_of_strings, Ht, He.
    replace (names_are _ _) with true by reflexivity. reflexivity.
  - repeat read_token. cbn [steps finish rev app].
    eexists. split; [reflexivity|].
    unfold as_AuthState. rewrite strings_of_strings, Ht, He.
    replace (names_are _ _) with true by reflexivity. reflexivity.
Qed.

(** ** What [JSON.stringify] and [encryptData] write is well-formed *)

Lemma isWellFormed_cons_below c (rest : list N) :
  c < 0xD800 -> isWellFormed (c :: rest) = isWellFormed rest.
Proof.
  intros H. cbn [isWellFormed]. unfold is_high_surrogate, is_low_surrogate.
  now settle_comparisons.
Qed.

Lemma isWellFormed_below (l rest : list N) :
  Forall (fun c => c < 0xD800) l -> isWellFormed (l ++ rest) = isWellFormed rest.
Proof.
  induction 1 as [|c l Hc _ IH]; [reflexivity|].
  cbn [app]. now rewrite isWellFormed_cons_below.
Qed.

Lemma isWellFormed_unit c (rest : list N) :
  is_high_surrogate c = false -> is_low_surrogate c = false -> c < 0x10000 ->
  isWellFormed (c :: rest) = isWellFormed rest.
Proof.
  intros Hh Hl Hc. cbn [isWellFormed]. rewrite Hh, Hl.
  now rewrite (proj2 (N.ltb_lt c 0x10000)) by assumption.
Qed.

Lemma hex_digit_below d : d < 16 -> hex_digit d < 0xD800.
Proof. intros H. unfold hex_digit. destruct (d <? 10); lia. Qed.

Lemma unicode_escape_below c :
  c < 0x10000 -> Forall (fun u => u < 0xD800) (unicode_escape c).
Proof.
  intros Hc. unfold unicode_escape, hex4, backslash.
  repeat constructor; try lia; apply hex_digit_below; lia.
Qed.

Lemma escape_unit_wf c (rest : list N) :
  is_high_surrogate c = false -> is_low_surrogate c = false -> c < 0x10000 ->
  isWellFormed (escape_unit c ++ rest) = isWellFormed rest.
Proof.
  intros Hh Hl Hc. unfold escape_unit, quote_unit, backslash.
  repeat match goal with
         | |- context [if ?b then _ else _] =>
             destruct b eqn:?;
             [ try (apply isWellFormed_below; repeat constructor; lia) | ]
         end.
  - apply isWellFormed_below, unicode_escape_below, Hc.
  - cbn [app]. now apply isWellFormed_unit.
Qed.

Lemma escape_units_wf (s rest : list N) :
  units16 s = true ->
  isWellFormed (escape_units s ++ rest) = isWellFormed rest.
Proof.
  remember (length s) as n eqn:Hn.
  revert s Hn. induction n as [n IH] using lt_wf_ind. intros s Hn Hs.
  destruct s as [|c s]; [reflexivity|].
  cbn [units16 forallb] in Hs. apply andb_prop in Hs as [Hc Hs].
  apply N.ltb_lt in Hc. cbn [escape_units].
  destruct (is_high_surrogate c) eqn:Hh.
  - destruct s as [|d s].
    + apply isWellFormed_below, unicode_escape_below, Hc.
    + destruct (is_low_surrogate d) eqn:Hl.
      * cbn [forallb] in Hs. apply andb_prop in Hs as [_ Hs].
        cbn [app isWellFormed]. rewrite Hh, Hl. cbn [andb].
        apply (IH (length s)); [cbn in Hn; lia | reflexivity | exact Hs].
      * rewrite <- app_assoc, isWellFormed_below by now apply unicode_escape_below.
        apply (IH (length (d :: s))); [cbn in Hn |- *; lia | reflexivity | exact Hs].
  - destruct (is_low_surrogate c) eqn:Hl.
    + rewrite <- app_assoc, isWellFormed_below by now apply unicode_escape_below.
      apply (IH (length s)); [cbn in Hn; lia | reflexivity | exact Hs].
    + rewrite <- app_assoc, escape_unit_wf by assumption.
      apply (IH (length s)); [cbn in Hn; lia | reflexivity | exact Hs].
Qed.

Lemma quote_wf (s rest : list N) :
  units16 s = true -> isWellFormed (quote s ++ rest) = isWellFormed rest.
Proof.
  intros Hs. unfold quote, quote_unit. cbn [app].
  rewrite isWellFormed_cons_below by lia.
  rewrite <- app_assoc, escape_units_wf by assumption.
  cbn [app]. now rewrite isWellFormed_cons_below by lia.
Qed.

Lemma digits_fuel_below fuel n : Forall (fun u => u < 0xD800) (digits_fuel fuel n).
Proof.
  revert n. induction fuel as [|fuel IH]; intros n; cbn [digits_fuel]; [constructor|].
  destruct (n <? 10) eqn:Hn.
  - apply N.ltb_lt in Hn. repeat constructor. lia.
  - apply Forall_app. split; [apply IH|]. repeat constructor. lia.
Qed.

Lemma number_to_string_wf z (rest : list N) :
  isWellFormed (number_to_string z ++ rest) = isWellFormed rest.
Proof.
  apply isWellFormed_below. unfold number_to_string, digits.
  destruct (z <? 0)%Z; [constructor; [lia|]|]; apply digits_fuel_below.
Qed.


Lemma member_wf (name : string) (value rest : list N) :
  units16 (js name) = true ->
  isWellFormed (member name value ++ rest) = isWellFormed (value ++ rest).
Proof.
  intros H. unfold member. rewrite <- app_assoc, quote_wf by assumption.
  cbn [app]. now rewrite isWellFormed_cons_below by lia.
Qed.

Lemma string_array_wf (p : list (list N)) (rest : list N) :
  forallb units16 p = true ->
  isWellFormed (join_comma (map quote p) ++ rest) = isWellFormed rest.
Proof.
  induction p as [|s p IH]; intros Hp; [reflexivity|].
  cbn [forallb] in Hp. apply andb_prop in Hp as [Hs Hp].
  destruct p as [|s' p].
  - cbn [map join_comma]. now apply quote_wf.
  - change (join_comma (map quote (s :: s' :: p)))
      with (quote s ++ 44 :: join_comma (map quote (s' :: p))).
    rewrite <- app_assoc, quote_wf by assumption.
    cbn [app]. rewrite isWellFormed_cons_below by lia. now apply IH.
Qed.

Theorem JSON_stringify_isWellFormed (R : AuthState) :
  record_strings16 R = true -> isWellFormed (JSON_stringify R) = true.
Proof.
  unfold record_strings16. intros H.
  apply andb_prop in H as [H Hn]. apply andb_prop in H as [H Hp].
  apply andb_prop in H as [H Hr]. apply andb_prop in H as [Hw Hs].
  unfold JSON_stringify.
  rewrite isWellFormed_cons_below by lia.
  destruct (refreshToken R) as [t|]; cbn [app join_comma];
    repeat first
      [ rewrite <- app_assoc
      | rewrite member_wf by reflexivity
      | rewrite quote_wf by assumption
      | rewrite number_to_string_wf
      | rewrite string_array_wf by assumption
      | rewrite isWellFormed_cons_below by lia
      | progress cbn [app] ];
    reflexivity.
Qed.

Lemma hex_encode_below (bs : list byte) : Forall (fun u => u < 0xD800) (hex_encode bs).
Proof.
  induction bs as [|b bs IH]; [constructor|].
  rewrite hex_encode_cons.
  pose proof (to_N_lt_256 b).
  repeat constructor; try assumption; apply hex_digit_below; lia.
Qed.

Lemma envelope_isWellFormed (iv ct : list byte) :
  isWellFormed (hex_encode iv ++ colon :: hex_encode ct) = true.
Proof.
  rewrite isWellFormed_below by apply hex_encode_below.
  unfold colon. rewrite isWellFormed_cons_below by lia.
  rewrite <- (app_nil_r (hex_encode ct)).
  now rewrite isWellFormed_below by apply hex_encode_below.
Qed.

(** ** Save, restart, load *)

Lemma encryptData_envelope (iv : block) (P K : list N) :
  length (normalizedKey K) = 32%nat ->
  exists c blob,
    encryptData iv P K = Ok (c :: blob)
    /\ isWellFormed (c :: blob) = true
    /\ (isWellFormed P = true -> decryptData (c :: blob) K = Ok P).
Proof.
  intros Hkey.
  assert (exists ct, encryptData iv P K
                     = Ok (hex_encode (bytes_of_block iv) ++ colon :: hex_encode ct)
                     /\ (isWellFormed P = true ->
                         decryptData (hex_encode (bytes_of_block iv) ++ colon :: hex_encode ct) K
                         = Ok P)) as (ct & He & Hd).
  { unfold encryptData, decryptData, createCipheriv.
    rewrite blocks_of_bytes_block, Hkey. cbn [Nat.eqb].
    change (32 =? 32)%nat with true. cbv iota.
    eexists. split; [reflexivity|]. intros Hwf.
    rewrite split_envelope. cbn [nth nth_error].
    rewrite !hex_decode_encode, blocks_of_bytes_block.
    rewrite hex_encode_even, decipher_cipher_update_final.
    now rewrite utf8_decode_encode. }
  pose proof (envelope_isWellFormed (bytes_of_block iv) ct) as Hwf.
  destruct (hex_encode (bytes_of_block iv) ++ colon :: hex_encode ct) as [|c blob] eqn:E.
  - destruct iv as [[] [] [] []]. discriminate E.
  - exists c, blob. auto.
Qed.

Lemma storeData_file k blob r w :
  storage_type r = js "encrypted-file" -> plain_file_name k = true ->
  storeData k (Some blob) (storage_type r) r w
  = (Ok tt, mkWorld (authCache w) (runtime w)
                    (<[file_name k := utf8_encode blob]> (files w)) (database w)
                    (now w) (entropy w) (draws w)).
Proof.
  intros -> Hk. unfold storeData, storeInFile. rewrite units_eqb_refl, Hk. reflexivity.
Qed.

Lemma storeData_database k blob r w :
  storage_type r = js "database" -> databaseAdapter r = true ->
  storeData k (Some blob) (storage_type r) r w
  = (Ok tt, mkWorld (authCache w) (runtime w) (files w) (<[k := blob]> (database w))
                    (now w) (entropy w) (draws w)).
Proof.
  intros -> Hk. unfold storeData, storeInDatabase. rewrite Hk. reflexivity.
Qed.

Lemma backend_lookup_file w k r blob :
  runtime w = Some r ->
  storage_type r = js "encrypted-file" -> plain_file_name k = true ->
  files w !! file_name k = Some (utf8_encode blob) ->
  isWellFormed blob = true ->
  backend_lookup w k = Ok (Some blob).
Proof.
  intros Hr Hst Hk Hf Hwf. unfold backend_lookup. rewrite Hr, Hst.
  unfold retrieveData, retrieveFromFile. rewrite units_eqb_refl, Hk.
  cbn [fst]. rewrite Hf. cbn [option_map]. now rewrite utf8_decode_encode.
Qed.

Lemma backend_lookup_database w k r blob :
  runtime w = Some r ->
  storage_type r = js "database" -> databaseAdapter r = true ->
  database w !! k = Some blob ->
  backend_lookup w k = Ok (Some blob).
Proof.
  intros Hr Hst Hk Hf. unfold backend_lookup. rewrite Hr, Hst.
  unfold retrieveData, retrieveFromDatabase. rewrite Hk.
  replace (units_eqb (js "database") (js "encrypted-file")) with false by reflexivity.
  rewrite units_eqb_refl. cbn [fst]. now rewrite Hf.
Qed.

Lemma load_stored_envelope k w r key c blob R :
  runtime w = Some r ->
  encryption_key r = SString key ->
  authCache w = ∅ ->
  backend_lookup w k = Ok (Some (c :: blob)) ->
  decryptData (c :: blob) key = Ok (JSON_stringify R) ->
  numbers_safe R = true ->
  (now w < expiresAt R)%Z ->
  loadAuthState k w
  = (Ok (Some R), mkWorld (<[k:=R]> (authCache w)) (runtime w) (files w) (database w)
                          (now w) (entropy w) (draws w)).
Proof.
  intros Hr Hkey Hc Hb Hd Hn Ht.
  rewrite loadAuthState_cache_miss
    by (unfold cached_valid; rewrite Hc, lookup_empty; reflexivity).
  rewrite (load_from_storage_blob k w r c blob key Hr Hb Hkey), Hd.
  destruct (JSON_parse_stringify R Hn) as (v & Hp & Ha).
  rewrite (parse_and_validate_record k _ w v R Hp Ha).
  now rewrite (proj2 (Z.ltb_lt _ _) Ht).
Qed.

(** C3, as the code has it. With the file backend and a session key that
    names a file of the storage directory, or the database backend and an
    adapter that returns for a key what was last upserted for it: when the
    configured key is a string whose normalization takes 32 bytes and the
    record's numbers are safe integers, [saveAuthState] succeeds, and after
    the in-memory cache was emptied [loadAuthState], called at any time
    before the record expires, returns the saved record and caches it. *)
Theorem saved_record_is_loaded_after_restart
    (k : list N) (R : AuthState) (w : World) (r : Runtime) (key : list N) (t : Z) :
  runtime w = Some r ->
  encryption_key r = SString key ->
  length (normalizedKey key) = 32%nat ->
  (storage_type r = js "encrypted-file" /\ plain_file_name k = true)
  \/ (storage_type r = js "database" /\ databaseAdapter r = true) ->
  record_strings16 R = true ->
  numbers_safe R = true ->
  (t < expiresAt R)%Z ->
  exists w1 w2,
    saveAuthState k R w = (Ok tt, w1)
    /\ loadAuthState k (at_time t (with_empty_cache w1)) = (Ok (Some R), w2)
    /\ authCache w2 !! k = Some R.
Proof.
  intros Hr Hkey Hlen Hst H16 Hn Ht.
  rewrite (saveAuthState_steps k R w r key Hr Hkey Hn). cbv zeta.
  destruct (encryptData_envelope (entropy w (draws w)) (JSON_stringify R) key Hlen)
    as (c & blob & He & Hwf & Hd).
  specialize (Hd (JSON_stringify_isWellFormed R H16)).
  rewrite He.
  destruct Hst as [[Hst Hk] | [Hst Hk]].
  - rewrite (storeData_file _ _ _ _ Hst Hk). cbn [authCache runtime files database now entropy draws].
    eexists. eexists. split; [reflexivity|].
    unfold at_time, with_empty_cache.
    cbn [authCache runtime files database now entropy draws].
    erewrite (load_stored_envelope k _ r key c blob R); cbn [authCache runtime files database now entropy draws];
      try reflexivity; try assumption.
    + split; [reflexivity|]. apply lookup_insert_eq.
    + eapply backend_lookup_file; cbn [authCache runtime files database now entropy draws];
        try eassumption. apply lookup_insert_eq.
  - rewrite (storeData_database _ _ _ _ Hst Hk). cbn [authCache runtime files database now entropy draws].
    eexists. eexists. split; [reflexivity|].
    unfold at_time, with_empty_cache.
    cbn [authCache runtime files database now entropy draws].
    erewrite (load_stored_envelope k _ r key c blob R); cbn [authCache runtime files database now entropy draws];
      try reflexivity; try assumption.
    + split; [reflexivity|]. apply lookup_insert_eq.
    + eapply backend_lookup_database; cbn [authCache runtime files database now entropy draws];
        try eassumption. apply lookup_insert_eq.
Qed.

Lemma saved_record_is_loaded_after_restart_witness :
  exists w1 w2,
    saveAuthState Scenario.session Scenario.record
      (Scenario.fresh (Scenario.a_runtime "encrypted-file" None false) 2000) = (Ok tt, w1)
    /\ loadAuthState Scenario.session (at_time 3000 (with_empty_cache w1))
       = (Ok (Some Scenario.record), w2)
    /\ authCache w2 !! Scenario.session = Some Scenario.record.
Proof.
  apply (saved_record_is_loaded_after_restart Scenario.session Scenario.record
           (Scenario.fresh (Scenario.a_runtime "encrypted-file" None false) 2000)
           (Scenario.a_runtime "encrypted-file" None false) (js "default-key") 3000).
  - reflexivity.
  - vm_compute. reflexivity.
  - vm_compute. reflexivity.
  - left. split; vm_compute; reflexivity.
  - vm_compute. reflexivity.
  - vm_compute. reflexivity.
  - reflexivity.
Defined.

(** C3, counterexample. With the memory backend nothing is written:
    [saveAuthState] succeeds, and once the cache was emptied [loadAuthState]
    returns no record, well before the saved one expires. *)
Lemma memory_backend_forgets_the_record :
  let w := Scenario.fresh (Scenario.a_runtime "memory" None false) 2000 in
  fst (saveAuthState Scenario.session Scenario.record w) = Ok tt
  /\ fst (loadAuthState Scenario.session
            (at_time 3000 (with_empty_cache
                             (snd (saveAuthState Scenario.session Scenario.record w)))))
     = Ok None.
Proof. cbv zeta. split; vm_compute; reflexivity. Qed.

(** ** Further properties of the cipher envelope *)

Lemma utf8_encode_ascii (s : list N) :
  forallb (fun c => c <? 128) s = true -> length (utf8_encode s) = length s.
Proof.
  induction s as [|c s IH]; [reflexivity|].
  cbn [forallb]. intros H. apply andb_prop in H as [Hc Hs]. apply N.ltb_lt in Hc.
  cbn [utf8_encode]. unfold is_high_surrogate, is_low_surrogate, encode_code_point.
  settle_comparisons. cbn [andb app length]. now rewrite IH.
Qed.

Lemma forallb_firstn {A} (P : A -> bool) n (l : list A) :
  forallb P l = true -> forallb P (firstn n l) = true.
Proof.
  revert l. induction n as [|n IH]; intros [|x l]; cbn [firstn forallb]; try reflexivity.
  intros H. apply andb_prop in H as [-> H]. now apply IH.
Qed.

Lemma forallb_repeat {A} (P : A -> bool) x n :
  P x = true -> forallb P (repeat x n) = true.
Proof. intros H. induction n as [|n IH]; cbn [repeat forallb]; [|rewrite H]; auto. Qed.

Lemma normalized_ascii_key (K : list N) :
  forallb (fun c => c <? 128) K = true -> length (normalizedKey K) = 32%nat.
Proof.
  intros H. unfold normalizedKey, slice0, padEnd.
  rewrite utf8_encode_ascii.
  - rewrite length_firstn, length_app, repeat_length. lia.
  - apply forallb_firstn. rewrite forallb_app, H. now apply forallb_repeat.
Qed.

(** X1. A key of ASCII characters, of any length, is normalized to 32
    bytes, and [encryptData] returns an envelope with it for every
    plaintext. *)
Theorem ascii_key_always_encrypts (iv : block) (P K : list N) :
  forallb (fun c => c <? 128) K = true ->
  length (normalizedKey K) = 32%nat
  /\ exists envelope, encryptData iv P K = Ok envelope.
Proof.
  intros H. pose proof (normalized_ascii_key K H) as Hlen.
  split; [exact Hlen | now apply encryptData_Ok].
Qed.

Lemma ascii_key_always_encrypts_witness :
  length (normalizedKey (js "a key that is longer than thirty-two characters")) = 32%nat
  /\ exists envelope,
       encryptData Scenario.zero_block Scenario.not_json_text
         (js "a key that is longer than thirty-two characters") = Ok envelope.
Proof.
  apply (ascii_key_always_encrypts Scenario.zero_block Scenario.not_json_text
           (js "a key that is longer than thirty-two characters")).
  vm_compute. reflexivity.
Defined.

Lemma length_bytes_of_block (b : block) : length (bytes_of_block b) = 16%nat.
Proof. destruct b as [[] [] [] []]. reflexivity. Qed.

Lemma length_flat_map_blocks (bs : list block) :
  length (flat_map bytes_of_block bs) = (16 * length bs)%nat.
Proof.
  induction bs as [|b bs IH]; [reflexivity|].
  cbn [flat_map]. rewrite length_app, length_bytes_of_block, IH. cbn [length]. lia.
Qed.

Lemma length_cipher_update_final ctx (data : list byte) :
  length (cipher_update_final ctx data) = (16 * S (length data / 16))%nat.
Proof.
  unfold cipher_update_final.
  destruct (blocks_of_bytes_multiple _ _ (pkcs7_pad_length data)) as (ps & Hps & _ & Hlen).
  now rewrite Hps, length_flat_map_blocks, length_cbc_encrypt, Hlen.
Qed.

(** X2. The envelope [encryptData] returns is the 32 hexadecimal digits of
    the initialization vector, one colon, and the hexadecimal digits of a
    ciphertext of whole 16-byte blocks, one block more than the plaintext's
    UTF-8 bytes fill; splitting it at the colon gives exactly these two
    parts. *)
Theorem envelope_shape (iv : block) (P K : list N) :
  length (normalizedKey K) = 32%nat ->
  exists ct,
    encryptData iv P K = Ok (hex_encode (bytes_of_block iv) ++ colon :: hex_encode ct)
    /\ length (hex_encode (bytes_of_block iv)) = 32%nat
    /\ length ct = (16 * S (length (utf8_encode P) / 16))%nat
    /\ split colon (hex_encode (bytes_of_block iv) ++ colon :: hex_encode ct)
       = [hex_encode (bytes_of_block iv); hex_encode ct].
Proof.
  intros Hkey. unfold encryptData, createCipheriv.
  rewrite blocks_of_bytes_block, Hkey. change (32 =? 32)%nat with true. cbv iota zeta.
  eexists. split; [reflexivity|].
  rewrite length_hex_encode, length_bytes_of_block, length_cipher_update_final, split_envelope.
  auto.
Qed.

Lemma envelope_shape_witness :
  exists ct,
    encryptData Scenario.zero_block Scenario.not_json_text (js "default-key")
    = Ok (hex_encode (bytes_of_block Scenario.zero_block) ++ colon :: hex_encode ct)
    /\ length (hex_encode (bytes_of_block Scenario.zero_block)) = 32%nat
    /\ length ct = (16 * S (length (utf8_encode Scenario.not_json_text) / 16))%nat
    /\ split colon (hex_encode (bytes_of_block Scenario.zero_block) ++ colon :: hex_encode ct)
       = [hex_encode (bytes_of_block Scenario.zero_block); hex_encode ct].
Proof.
  apply (envelope_shape Scenario.zero_block Scenario.not_json_text (js "default-key")).
  vm_compute. reflexivity.
Defined.

(** X3. A blob without a colon is never decrypted: [decryptData] throws,
    for the initialization vector, for the key, or for the missing
    ciphertext. *)
Theorem blob_without_colon_is_rejected (blob key : list N) :
  forallb (fun c => negb (c =? colon)) blob = true ->
  decryptData blob key = Throw InvalidIV
  \/ decryptData blob key = Throw InvalidKeyLength
  \/ decryptData blob key = Throw InvalidArgType.
Proof.
  intros H. unfold decryptData.
  rewrite split_no_separator.
  - cbn [nth nth_error]. unfold createCipheriv.
    destruct (blocks_of_bytes (hex_decode blob)) as [[|b [|b' bs]]|]; auto.
    destruct (length (normalizedKey key) =? 32)%nat; auto.
  - apply List.Forall_forall. intros c Hc.
    eapply forallb_forall in H; [|exact Hc].
    apply negb_true_iff, N.eqb_neq in H. exact H.
Qed.

Lemma blob_without_colon_is_rejected_witness :
  decryptData (js "00000000000000000000000000000000") (js "default-key") = Throw InvalidIV
  \/ decryptData (js "00000000000000000000000000000000") (js "default-key")
     = Throw InvalidKeyLength
  \/ decryptData (js "00000000000000000000000000000000") (js "default-key")
     = Throw InvalidArgType.
Proof.
  apply (blob_without_colon_is_rejected (js "00000000000000000000000000000000")
           (js "default-key")).
  vm_compute. reflexivity.
Defined.

(** ** The cache and the backends *)

Lemma storeData_world k data st r w :
  authCache (snd (storeData k data st r w)) = authCache w
  /\ runtime (snd (storeData k data st r w)) = runtime w
  /\ now (snd (storeData k data st r w)) = now w.
Proof.
  unfold storeData, storeInFile, storeInDatabase.
  repeat match goal with
         | |- context [if ?b then _ else _] => destruct b
         | |- context [match ?x with Some _ => _ | None => _ end] => destruct x
         end; cbn; auto.
Qed.

Lemma saveAuthState_world k R w :
  authCache (snd (saveAuthState k R w)) = <[k:=R]> (authCache w)
  /\ runtime (snd (saveAuthState k R w)) = runtime w
  /\ now (snd (saveAuthState k R w)) = now w.
Proof.
  enough (forall P : World -> Prop,
             (forall w1, authCache w1 = <[k:=R]> (authCache w) ->
                         runtime w1 = runtime w -> now w1 = now w -> P w1) ->
             P (snd (saveAuthState k R w))) as H
    by (apply H; auto).
  intros P HP.
  unfold saveAuthState, stringify.
  unfold bind at 1. cbn [set_authCache].
  destruct (numbers_safe R); [|apply HP; reflexivity].
  unfold bind at 1. cbn [ret].
  unfold bind at 1. unfold setting_or at 1. cbn [runtime].
  destruct (runtime w) as [r|] eqn:Hr; [|apply HP; cbn; auto].
  unfold bind at 1. unfold call_encryptData.
  destruct (or_default (getSetting r (js "ENCRYPTION_KEY")) "default-key") as [key| |];
    try (apply HP; cbn; auto; fail).
  unfold bind at 1. cbn [randomBytes16 authCache runtime files database now entropy draws lift].
  destruct (encryptData _ _ key) as [blob|e|]; try (apply HP; cbn; auto; fail).
  unfold bind at 1. unfold setting_or. cbn [runtime].
  unfold bind at 1. unfold this_runtime. cbn [runtime].
  match goal with
  | |- context [storeData ?a ?b ?c ?d ?e] =>
      destruct (storeData_world a b c d e) as (H1 & H2 & H3)
  end.
  apply HP; [rewrite H1 | rewrite H2 | rewrite H3]; cbn; auto.
Qed.

(** X6. [saveAuthState] writes the cache before it encrypts and stores:
    whatever the outcome of the call, a [loadAuthState] for the same key on
    the same manager, before the record expires, returns the record from
    the cache and changes nothing. This holds with the memory backend, and
    after a save that threw. *)
Theorem load_after_save_returns_the_cached_record (k : list N) (R : AuthState) (w : World) :
  (now w < expiresAt R)%Z ->
  loadAuthState k (snd (saveAuthState k R w))
  = (Ok (Some R), snd (saveAuthState k R w)).
Proof.
  intros Ht. destruct (saveAuthState_world k R w) as (Hc & _ & Hn).
  apply loadAuthState_cache_hit.
  - rewrite Hc. apply lookup_insert_eq.
  - now rewrite Hn.
Qed.

Lemma refreshAuthState_Some k a w R w' :
  refreshAuthState k a w = (Ok (Some R), w') ->
  exists r seconds,
    runtime w = Some r /\ ttl_seconds r = Some seconds
    /\ R = refreshed a (now w) seconds
    /\ saveAuthState k R w = (Ok tt, w').
Proof.
  unfold refreshAuthState, try_catch. unfold bind at 1. unfold setting_or.
  destruct (runtime w) as [r|] eqn:Hr; [|discriminate].
  destruct (parseInt (or_default (getSetting r (js "authStateTTL")) "86400"))
    as [seconds|] eqn:Hp; [|discriminate].
  cbv zeta.
  destruct (safe_integer (seconds * 1000)) eqn:Hs; [|discriminate].
  unfold bind at 1. unfold Date_now at 1. unfold bind at 1. unfold Date_now at 1.
  unfold bind at 1.
  destruct (saveAuthState k _ w) as [[[]| |] w1] eqn:Hsave; cbn [ret]; try discriminate.
  intros [= <- <-]. exists r, seconds. unfold ttl_seconds. rewrite Hp, Hs.
  repeat split; auto.
Qed.

Lemma parse_and_validate_Some k text w R w' :
  parse_and_validate k text w = (Ok (Some R), w') ->
  ((now w < expiresAt R)%Z
   /\ w' = mkWorld (<[k:=R]> (authCache w)) (runtime w) (files w) (database w)
                   (now w) (entropy w) (draws w))
  \/ exists a, refreshAuthState k a w = (Ok (Some R), w').
Proof.
  destruct (JSON_parse text) as [v|] eqn:Hp;
    [|rewrite parse_and_validate_not_json by assumption; discriminate].
  destruct (as_AuthState v) as [a|] eqn:Ha.
  - rewrite (parse_and_validate_record k text w v a Hp Ha).
    destruct (now w <? expiresAt a)%Z eqn:Hv.
    + intros [= <- <-]. left. split; [now apply Z.ltb_lt | reflexivity].
    + destruct (has_refreshToken a); [|discriminate].
      destruct (runtime w); [|discriminate].
      destruct (strictly_true _); [|discriminate].
      destruct (refreshAuthState k a w) as [[o| |] w1] eqn:Hrf; try discriminate.
      intros [= -> ->]. right. eauto.
  - unfold parse_and_validate. rewrite Hp, Ha. discriminate.
Qed.

Lemma load_from_storage_Some k w R w' :
  load_from_storage k w = (Ok (Some R), w') ->
  exists text, parse_and_validate k text w = (Ok (Some R), w').
Proof.
  unfold load_from_storage. unfold bind at 1. unfold setting_or at 1.
  destruct (runtime w) as [r|] eqn:Hr; [|discriminate].
  unfold bind at 1. unfold this_runtime. rewrite Hr.
  unfold bind at 1. rewrite retrieveData_eq.
  destruct (fst (retrieveData _ _ _ _)) as [[[|c blob]|]| |]; try discriminate.
  unfold bind at 1. unfold setting_or. rewrite Hr.
  unfold bind at 1. unfold call_decryptData.
  destruct (or_default _ _) as [key| |]; try discriminate.
  unfold lift. destruct (decryptData _ key) as [text| |]; try discriminate.
  eauto.
Qed.

Lemma loadAuthState_Some k w R w' :
  loadAuthState k w = (Ok (Some R), w') ->
  (authCache w !! k = Some R /\ (now w < expiresAt R)%Z /\ w' = w)
  \/ ((now w < expiresAt R)%Z
      /\ w' = mkWorld (<[k:=R]> (authCache w)) (runtime w) (files w) (database w)
                      (now w) (entropy w) (draws w))
  \/ exists a, refreshAuthState k a w = (Ok (Some R), w').
Proof.
  intros H.
  assert (load_from_storage k w = (Ok (Some R), w') ->
          ((now w < expiresAt R)%Z
           /\ w' = mkWorld (<[k:=R]> (authCache w)) (runtime w) (files w) (database w)
                           (now w) (entropy w) (draws w))
          \/ exists a, refreshAuthState k a w = (Ok (Some R), w')) as Hs.
  { intros Hl. apply load_from_storage_Some in Hl as (text & Hl).
    now apply parse_and_validate_Some in Hl. }
  unfold loadAuthState in H. unfold bind at 1 in H.
  destruct (authCache w !! k) as [c|] eqn:Hc; [|right; now apply Hs].
  unfold bind at 1 in H. unfold isValid, bind, Date_now, ret in H.
  destruct (now w <? expiresAt c)%Z eqn:Hv; [|right; now apply Hs].
  injection H as <- <-. left. repeat split; auto. now apply Z.ltb_lt.
Qed.

(** X16. Whatever record [loadAuthState] returns is the record the cache
    holds for the key afterwards: it was there, or it was put there from
    the backend, or it was refreshed and saved. *)
Theorem loaded_record_is_cached (k : list N) (w : World) (R : AuthState) :
  fst (loadAuthState k w) = Ok (Some R) ->
  authCache (snd (loadAuthState k w)) !! k = Some R.
Proof.
  destruct (loadAuthState k w) as [o w'] eqn:H. cbn [fst snd]. intros ->.
  apply loadAuthState_Some in H as [(Hc & _ & ->) | [(_ & ->) | (a & H)]].
  - exact Hc.
  - cbn [authCache]. apply lookup_insert_eq.
  - apply refreshAuthState_Some in H as (r & seconds & _ & _ & _ & Hsave).
    destruct (saveAuthState_world k R w) as (Hcache & _).
    rewrite Hsave in Hcache. cbn [snd] in Hcache. rewrite Hcache. apply lookup_insert_eq.
Qed.

(** X17. With a positive time-to-live configured, [loadAuthState] never
    returns a record that has expired: the record it returns expires after
    the time of the call. *)
Theorem loaded_record_has_not_expired
    (k : list N) (w : World) (r : Runtime) (seconds : Z) (R : AuthState) :
  runtime w = Some r ->
  ttl_seconds r = Some seconds ->
  (0 < seconds)%Z ->
  fst (loadAuthState k w) = Ok (Some R) ->
  (now w < expiresAt R)%Z.
Proof.
  intros Hr Httl Hpos. destruct (loadAuthState k w) as [o w'] eqn:H. cbn [fst]. intros ->.
  apply loadAuthState_Some in H as [(_ & Hv & _) | [(Hv & _) | (a & H)]]; auto.
  apply refreshAuthState_Some in H as (r' & seconds' & Hr' & Httl' & -> & _).
  rewrite Hr in Hr'. injection Hr' as <-. rewrite Httl in Httl'. injection Httl' as <-.
  cbn [refreshed expiresAt]. lia.
Qed.

(** X4. A cached record that has not expired is returned as it is: the
    call reads neither the runtime nor a backend, so it succeeds on a
    manager that was never initialized or whose backend is unusable, and
    it changes nothing. *)
Theorem valid_cached_record_needs_no_backend (k : list N) (w : World) (c : AuthState) :
  authCache w !! k = Some c ->
  (now w < expiresAt c)%Z ->
  loadAuthState k w = (Ok (Some c), w).
Proof. apply loadAuthState_cache_hit. Qed.

Lemma valid_cached_record_needs_no_backend_witness :
  loadAuthState Scenario.session
    (mkWorld {[ Scenario.session := Scenario.record ]} None ∅ ∅ 2000
             (fun _ => Scenario.zero_block) 0)
  = (Ok (Some Scenario.record),
     mkWorld {[ Scenario.session := Scenario.record ]} None ∅ ∅ 2000
             (fun _ => Scenario.zero_block) 0).
Proof.
  apply (valid_cached_record_needs_no_backend Scenario.session
           (mkWorld {[ Scenario.session := Scenario.record ]} None ∅ ∅ 2000
                    (fun _ => Scenario.zero_block) 0)
           Scenario.record).
  - vm_compute. reflexivity.
  - reflexivity.
Defined.

(** X5. [refreshAuthState] raises nothing, whatever the key, the record
    and the state of the manager: every exception of its body, a missing
    runtime included, is caught. *)
Theorem refresh_raises_nothing (k : list N) (a : AuthState) (w : World) (e : error) :
  fst (refreshAuthState k a w) <> Throw e.
Proof. apply refreshAuthState_never_throws. Qed.

Lemma refresh_raises_nothing_witness :
  fst (refreshAuthState Scenario.session Scenario.record (Scenario.uninitialized 6000))
  <> Throw RuntimeUndefined.
Proof.
  apply (refresh_raises_nothing Scenario.session Scenario.record
           (Scenario.uninitialized 6000) RuntimeUndefined).
Defined.

Lemma load_after_save_returns_the_cached_record_witness :
  loadAuthState Scenario.session
    (snd (saveAuthState Scenario.session Scenario.record
            (Scenario.fresh (Scenario.a_runtime "database" None false) 2000)))
  = (Ok (Some Scenario.record),
     snd (saveAuthState Scenario.session Scenario.record
            (Scenario.fresh (Scenario.a_runtime "database" None false) 2000))).
Proof.
  apply (load_after_save_returns_the_cached_record Scenario.session Scenario.record
           (Scenario.fresh (Scenario.a_runtime "database" None false) 2000)).
  reflexivity.
Defined.

Lemma loaded_record_is_cached_witness :
  authCache (snd (loadAuthState Scenario.session
                    (at_time 6000 (Scenario.saved
                       (Scenario.a_runtime "encrypted-file" (Some (SBool true)) false)))))
    !! Scenario.session
  = Some (refreshed Scenario.record 6000 86400).
Proof.
  apply (loaded_record_is_cached Scenario.session
           (at_time 6000 (Scenario.saved
              (Scenario.a_runtime "encrypted-file" (Some (SBool true)) false)))
           (refreshed Scenario.record 6000 86400)).
  vm_compute. reflexivity.
Defined.

Lemma loaded_record_has_not_expired_witness :
  (now (at_time 6000 (Scenario.saved
          (Scenario.a_runtime "encrypted-file" (Some (SBool true)) false)))
   < expiresAt (refreshed Scenario.record 6000 86400))%Z.
Proof.
  apply (loaded_record_has_not_expired Scenario.session
           (at_time 6000 (Scenario.saved
              (Scenario.a_runtime "encrypted-file" (Some (SBool true)) false)))
           (Scenario.a_runtime "encrypted-file" (Some (SBool true)) false)
           86400 (refreshed Scenario.record 6000 86400)).
  - reflexivity.
  - vm_compute. reflexivity.
  - reflexivity.
  - vm_compute. reflexivity.
Defined.

(** ** The storage backends *)

(** X8. What [storeData] stores, [retrieveData] returns: with the file
    backend for a key that names a file of the storage directory and data
    that is a well-formed string, and with the database backend when the
    runtime has an adapter. *)
Theorem stored_data_is_retrieved
    (k data st : list N) (r : Runtime) (w : World) :
  (st = js "encrypted-file" /\ plain_file_name k = true /\ isWellFormed data = true)
  \/ (st = js "database" /\ databaseAdapter r = true) ->
  exists w',
    storeData k (Some data) st r w = (Ok tt, w')
    /\ retrieveData k st r w' = (Ok (Some data), w').
Proof.
  intros [(-> & Hk & Hwf) | (-> & Hk)]; unfold storeData, retrieveData.
  - rewrite units_eqb_refl. unfold storeInFile, retrieveFromFile. rewrite Hk.
    eexists. split; [reflexivity|]. cbn [files].
    now rewrite lookup_insert_eq; cbn [option_map]; rewrite utf8_decode_encode.
  - replace (units_eqb (js "database") (js "encrypted-file")) with false by reflexivity.
    rewrite units_eqb_refl. unfold storeInDatabase, retrieveFromDatabase. rewrite Hk.
    eexists. split; [reflexivity|]. cbn [database]. now rewrite lookup_insert_eq.
Qed.

Lemma stored_data_is_retrieved_witness :
  exists w',
    storeData Scenario.session (Some Scenario.not_json_text) (js "database")
      (Scenario.a_runtime "database" None true)
      (Scenario.fresh (Scenario.a_runtime "database" None true) 2000) = (Ok tt, w')
    /\ retrieveData Scenario.session (js "database")
         (Scenario.a_runtime "database" None true) w'
       = (Ok (Some Scenario.not_json_text), w').
Proof.
  apply (stored_data_is_retrieved Scenario.session Scenario.not_json_text (js "database")
           (Scenario.a_runtime "database" None true)
           (Scenario.fresh (Scenario.a_runtime "database" None true) 2000)).
  right. split; reflexivity.
Defined.

(** X9. Storing [null] deletes: afterwards [retrieveData] returns [null]
    for the key, with the file backend and with the database backend. *)
Theorem deleted_data_is_absent (k st : list N) (r : Runtime) (w : World) :
  (st = js "encrypted-file" /\ plain_file_name k = true)
  \/ (st = js "database" /\ databaseAdapter r = true) ->
  exists w',
    storeData k None st r w = (Ok tt, w')
    /\ retrieveData k st r w' = (Ok None, w').
Proof.
  intros [(-> & Hk) | (-> & Hk)]; unfold storeData, retrieveData.
  - rewrite units_eqb_refl. unfold storeInFile, retrieveFromFile. rewrite Hk.
    eexists. split; [reflexivity|]. cbn [files]. now rewrite lookup_delete_eq.
  - replace (units_eqb (js "database") (js "encrypted-file")) with false by reflexivity.
    rewrite units_eqb_refl. unfold storeInDatabase, retrieveFromDatabase. rewrite Hk.
    eexists. split; [reflexivity|]. cbn [database]. now rewrite lookup_delete_eq.
Qed.

Lemma deleted_data_is_absent_witness :
  exists w',
    storeData Scenario.session None (js "encrypted-file")
      (Scenario.a_runtime "encrypted-file" None false)
      (Scenario.saved (Scenario.a_runtime "encrypted-file" None false)) = (Ok tt, w')
    /\ retrieveData Scenario.session (js "encrypted-file")
         (Scenario.a_runtime "encrypted-file" None false) w' = (Ok None, w').
Proof.
  apply (deleted_data_is_absent Scenario.session (js "encrypted-file")
           (Scenario.a_runtime "encrypted-file" None false)
           (Scenario.saved (Scenario.a_runtime "encrypted-file" None false))).
  left. split; vm_compute; reflexivity.
Defined.

(** X7. After [clearAuthState] a [loadAuthState] for the key returns no
    record, with each of the three backends: the cache entry and the stored
    blob are both gone. *)
Theorem cleared_record_is_absent (k : list N) (w : World) (r : Runtime) :
  runtime w = Some r ->
  units_eqb k (js "__proto__") = false ->
  (storage_type r = js "encrypted-file" /\ plain_file_name k = true)
  \/ (storage_type r = js "database" /\ databaseAdapter r = true)
  \/ storage_type r = js "memory" ->
  exists w',
    clearAuthState k w = (Ok tt, w')
    /\ loadAuthState k w' = (Ok None, w').
Proof.
  intros Hr Hk Hst. unfold clearAuthState.
  unfold bind at 1. cbn [set_authCache]. rewrite Hk.
  unfold bind at 1. unfold setting_or. cbn [runtime]. rewrite Hr.
  unfold bind at 1. unfold this_runtime. cbn [runtime].
  fold (storage_type r).
  assert (forall w', runtime w' = Some r -> authCache w' = delete k (authCache w) ->
                     backend_lookup w' k = Ok None -> loadAuthState k w' = (Ok None, w'))
    as Hload.
  { intros w' Hr' Hc Hb.
    rewrite loadAuthState_cache_miss
      by (unfold cached_valid; rewrite Hc, lookup_delete_eq; reflexivity).
    now apply load_from_storage_absent. }
  destruct Hst as [(Hst & Hp) | [(Hst & Hp) | Hst]]; rewrite Hst;
    unfold storeData, storeInFile, storeInDatabase.
  - rewrite units_eqb_refl, Hp. eexists. split; [reflexivity|].
    apply Hload; try reflexivity.
    unfold backend_lookup. cbn [runtime]. rewrite Hst.
    unfold retrieveData, retrieveFromFile. rewrite units_eqb_refl, Hp.
    cbn [fst files]. now rewrite lookup_delete_eq.
  - replace (units_eqb (js "database") (js "encrypted-file")) with false by reflexivity.
    rewrite units_eqb_refl, Hp. eexists. split; [reflexivity|].
    apply Hload; try reflexivity.
    unfold backend_lookup. cbn [runtime]. rewrite Hst.
    unfold retrieveData, retrieveFromDatabase. rewrite Hp.
    replace (units_eqb (js "database") (js "encrypted-file")) with false by reflexivity.
    rewrite units_eqb_refl. cbn [fst database]. now rewrite lookup_delete_eq.
  - replace (units_eqb (js "memory") (js "encrypted-file")) with false by reflexivity.
    replace (units_eqb (js "memory") (js "database")) with false by reflexivity.
    rewrite units_eqb_refl. eexists. split; [reflexivity|].
    apply Hload; try reflexivity.
    unfold backend_lookup. cbn [runtime]. rewrite Hst. reflexivity.
Qed.

Lemma cleared_record_is_absent_witness :
  exists w',
    clearAuthState Scenario.session
      (snd (saveAuthState Scenario.session Scenario.record
              (Scenario.fresh (Scenario.a_runtime "encrypted-file" None false) 2000)))
    = (Ok tt, w')
    /\ loadAuthState Scenario.session w' = (Ok None, w').
Proof.
  apply (cleared_record_is_absent Scenario.session
           (snd (saveAuthState Scenario.session Scenario.record
                   (Scenario.fresh (Scenario.a_runtime "encrypted-file" None false) 2000)))
           (Scenario.a_runtime "encrypted-file" None false)).
  - vm_compute. reflexivity.
  - vm_compute. reflexivity.
  - left. split; vm_compute; reflexivity.
Defined.

(** X13. A stored record that has expired and holds no refresh token is
    not returned and not refreshed: [loadAuthState] returns no record and
    changes nothing, whatever [autoRefresh] is. *)
Theorem expired_record_without_token_is_absent (k : list N) (w : World) (R : AuthState) :
  cached_valid w k = false ->
  stored_record w k = Some R ->
  (expiresAt R <= now w)%Z ->
  has_refreshToken R = false ->
  loadAuthState k w = (Ok None, w).
Proof.
  intros Hc Hs He Ht.
  destruct (loadAuthState_stored_record k w R Hc Hs)
    as (r & key & text & v & _ & _ & _ & _ & Hp & Ha & ->).
  rewrite (parse_and_validate_record k text w v R Hp Ha), Ht.
  now rewrite (proj2 (Z.ltb_ge _ _) He).
Qed.

Lemma expired_record_without_token_is_absent_witness :
  loadAuthState Scenario.session
    (at_time 6000 (with_empty_cache
       (snd (saveAuthState Scenario.session Scenario.record_no_token
               (Scenario.fresh (Scenario.a_runtime "encrypted-file" (Some (SBool true)) false)
                  2000)))))
  = (Ok None,
     at_time 6000 (with_empty_cache
       (snd (saveAuthState Scenario.session Scenario.record_no_token
               (Scenario.fresh (Scenario.a_runtime "encrypted-file" (Some (SBool true)) false)
                  2000))))).
Proof.
  apply (expired_record_without_token_is_absent Scenario.session
           (at_time 6000 (with_empty_cache
              (snd (saveAuthState Scenario.session Scenario.record_no_token
                      (Scenario.fresh
                         (Scenario.a_runtime "encrypted-file" (Some (SBool true)) false)
                         2000)))))
           Scenario.record_no_token).
  - vm_compute. reflexivity.
  - vm_compute. reflexivity.
  - vm_compute. discriminate.
  - reflexivity.
Defined.

(** X14. Saving one session leaves the cached record of every other
    session as it was, whatever the outcome of the save. *)
Theorem save_keeps_other_sessions (k k' : list N) (R : AuthState) (w : World) :
  units_eqb k k' = false ->
  authCache (snd (saveAuthState k R w)) !! k' = authCache w !! k'.
Proof.
  intros H. destruct (saveAuthState_world k R w) as (-> & _).
  apply lookup_insert_ne. intros E. apply units_eqb_eq in E. congruence.
Qed.

Lemma save_keeps_other_sessions_witness :
  authCache (snd (saveAuthState (js "other") Scenario.record_no_token
                    (snd (saveAuthState Scenario.session Scenario.record
                            (Scenario.fresh (Scenario.a_runtime "memory" None false) 2000)))))
    !! Scenario.session
  = authCache (snd (saveAuthState Scenario.session Scenario.record
                      (Scenario.fresh (Scenario.a_runtime "memory" None false) 2000)))
      !! Scenario.session.
Proof.
  apply (save_keeps_other_sessions (js "other") Scenario.session Scenario.record_no_token
           (snd (saveAuthState Scenario.session Scenario.record
                   (Scenario.fresh (Scenario.a_runtime "memory" None false) 2000)))).
  vm_compute. reflexivity.
Defined.

(** ** Nonces and validation *)

Lemma hex_digit_lowercase d :
  d < 16 ->
  ((48 <=? hex_digit d) && (hex_digit d <=? 57)
   || (97 <=? hex_digit d) && (hex_digit d <=? 102)) = true.
Proof.
  intros H. unfold hex_digit. destruct (N.ltb_spec d 10); settle_comparisons; reflexivity.
Qed.

Lemma hex_encode_lowercase (bs : list byte) :
  forallb (fun c => (48 <=? c) && (c <=? 57) || (97 <=? c) && (c <=? 102)) (hex_encode bs)
  = true.
Proof.
  induction bs as [|b bs IH]; [reflexivity|].
  rewrite hex_encode_cons, forallb_app, IH, andb_true_r.
  pose proof (to_N_lt_256 b). cbn [hex_encode flat_map app forallb].
  rewrite !hex_digit_lowercase by lia. reflexivity.
Qed.

(** X10. [generateNonce] returns 32 lowercase hexadecimal digits, which
    decode to the 16 random bytes it drew: nonces of different random
    bytes differ. It draws once. *)
Theorem nonce_is_32_hex_digits (w : World) :
  exists nonce,
    fst (generateNonce w) = Ok nonce
    /\ length nonce = 32%nat
    /\ forallb (fun c => (48 <=? c) && (c <=? 57) || (97 <=? c) && (c <=? 102)) nonce = true
    /\ hex_decode nonce = bytes_of_block (entropy w (draws w))
    /\ draws (snd (generateNonce w)) = S (draws w).
Proof.
  eexists. split; [reflexivity|].
  rewrite length_hex_encode, hex_encode_lowercase, hex_decode_encode.
  destruct (entropy w (draws w)) as [[] [] [] []]. repeat split.
Qed.

(** X11. A record that [validateAuthState] accepts is accepted again after
    [refreshAuthState] rebuilt it with a positive time-to-live, at the time
    of the refresh and at any later time. *)
Theorem refresh_keeps_a_valid_record_valid
    (a : AuthState) (w w' : World) (seconds : Z) :
  fst (validateAuthState a w) = Ok true ->
  (0 < seconds)%Z ->
  (now w <= now w')%Z ->
  fst (validateAuthState (refreshed a (now w) seconds) w') = Ok true.
Proof.
  unfold validateAuthState, refreshed.
  cbn [walletPublicKey signature timestamp expiresAt network].
  destruct (units_eqb (walletPublicKey a) []); [discriminate|].
  destruct (units_eqb (signature a) []); [discriminate|].
  destruct (timestamp a =? 0)%Z; [discriminate|].
  destruct (expiresAt a =? 0)%Z; [discriminate|].
  destruct (units_eqb (network a) []); [discriminate|].
  cbn [orb].
  destruct (validatePublicKey (walletPublicKey a)); [|discriminate].
  cbn [negb].
  destruct (Z.leb_spec (timestamp a) 0); [discriminate|].
  unfold bind, Date_now, ret.
  destruct (Z.ltb_spec (now w) (timestamp a)); [discriminate|].
  intros _ Hs Hn.
  replace (now w =? 0)%Z with false by lia.
  replace (now w + seconds * 1000 =? 0)%Z with false by lia.
  replace (now w <=? 0)%Z with false by lia.
  cbn [orb fst]. cbv beta.
  replace (now w' <? now w)%Z with false by lia.
  replace (now w + seconds * 1000 <=? now w)%Z with false by lia.
  reflexivity.
Qed.

Lemma refresh_keeps_a_valid_record_valid_witness :
  fst (validateAuthState (refreshed Scenario.record 6000 86400)
         (Scenario.uninitialized 7000)) = Ok true.
Proof.
  apply (refresh_keeps_a_valid_record_valid Scenario.record
           (Scenario.uninitialized 6000) (Scenario.uninitialized 7000) 86400).
  - vm_compute. reflexivity.
  - reflexivity.
  - vm_compute. discriminate.
Defined.

(** X12. The text [JSON.stringify] writes for a record is a well-formed
    string, lone surrogates in the record's strings included, and
    [JSON.parse] reads it back as the record. *)
Theorem stringified_record_parses_back (R : AuthState) :
  numbers_safe R = true ->
  record_strings16 R = true ->
  isWellFormed (JSON_stringify R) = true
  /\ exists v, JSON_parse (JSON_stringify R) = Some v /\ as_AuthState v = Some R.
Proof.
  intros Hn H16. split; [now apply JSON_stringify_isWellFormed | now apply JSON_parse_stringify].
Qed.

Lemma stringified_record_parses_back_witness :
  isWellFormed (JSON_stringify Scenario.record) = true
  /\ exists v, JSON_parse (JSON_stringify Scenario.record) = Some v
               /\ as_AuthState v = Some Scenario.record.
Proof.
  apply (stringified_record_parses_back Scenario.record); vm_compute; reflexivity.
Defined.

(** ** Defaults and damaged envelopes *)




Lemma blocks_of_bytes_length (n : nat) :
  forall (l : list byte) bs,
    (length l <= n)%nat -> blocks_of_bytes l = Some bs -> length l = (16 * length bs)%nat.
Proof.
  induction n as [|n IH]; intros l bs Hn H.
  - destruct l; [|cbn in Hn; lia]. cbn in H. injection H as <-. reflexivity.
  - do 16 (destruct l as [|? l];
           [cbn in H; first [discriminate H | injection H as <-; reflexivity]|]).
    cbn [blocks_of_bytes] in H.
    destruct (blocks_of_bytes l) as [bs'|] eqn:E; [|discriminate].
    injection H as <-. cbn [length] in *.
    rewrite (IH l bs') by (lia || assumption). lia.
Qed.

(** X18. A ciphertext that is not whole 16-byte blocks is rejected: for an
    envelope with a proper initialization vector and a usable key,
    [decryptData] throws "wrong final block length". *)
Theorem truncated_ciphertext_is_rejected (iv : block) (ct : list byte) (K : list N) :
  length (normalizedKey K) = 32%nat ->
  (length ct mod 16 <> 0)%nat ->
  decryptData (hex_encode (bytes_of_block iv) ++ colon :: hex_encode ct) K
  = Throw WrongFinalBlockLength.
Proof.
  intros Hkey Hct. unfold decryptData, createCipheriv.
  rewrite split_envelope. cbn [nth nth_error].
  rewrite !hex_decode_encode, blocks_of_bytes_block, Hkey.
  change (32 =? 32)%nat with true. cbv iota.
  rewrite hex_encode_even. unfold decipher_update_final.
  destruct (blocks_of_bytes ct) as [bs|] eqn:E; [|reflexivity].
  apply (blocks_of_bytes_length (length ct)) in E; [|lia].
  exfalso. apply Hct. rewrite E. rewrite Nat.mul_comm. apply Nat.Div0.mod_mul.
Qed.

Lemma truncated_ciphertext_is_rejected_witness :
  decryptData (hex_encode (bytes_of_block Scenario.zero_block) ++ colon :: hex_encode [x00; x01])
    (js "default-key")
  = Throw WrongFinalBlockLength.
Proof.
  apply (truncated_ciphertext_is_rejected Scenario.zero_block [x00; x01] (js "default-key")).
  - vm_compute. reflexivity.
  - vm_compute. discriminate.
Defined.
